(** * Chatterbox: the connection registry and the websocket gateway

    A shallow embedding of [app/connection_manager.py], of
    [get_last_messages] in [app/database.py] and of [websocket_endpoint] in
    [app/main.py], with the properties of the connection lifecycle and of
    the broadcast sweep proved over it.

    The Python code runs against three things it does not own: the
    websocket transport, the SQLite file and the clock.  They are gathered
    in a record [Env] that every operation reads; the state the program
    does own (the session dictionary, the list of active connections, the
    [messages] table) lives in [World], next to a log of what went over
    the wire.  Exceptions are values: an operation returns [Ok a] or
    [Raise e], and [try_except] is Python's [try: ... except ...:]. *)

From Stdlib Require Import ZArith NArith Ascii String Lia.
From stdpp Require Import base decidable option list sorting gmap strings.

Local Open Scope Z_scope.

(** ** Python values *)

(** A Python [str] is a sequence of Unicode code points; [len] counts them. *)
Definition str := list N.

Definition lit (s : string) : str :=
  (λ a, N_of_ascii a) <$> list_ascii_of_string s.

Definition len {A} (l : list A) : Z := Z.of_nat (length l).

(** [str.isspace] on one character, as [str.strip()] uses it: the ASCII
    separators and the Unicode code points of class WS, B, S or Zs. *)
Definition isspace (c : N) : bool :=
  ((9 <=? c) && (c <=? 13) || (28 <=? c) && (c <=? 32)
   || (c =? 133) || (c =? 160) || (c =? 5760)
   || (8192 <=? c) && (c <=? 8202)
   || (c =? 8232) || (c =? 8233) || (c =? 8239) || (c =? 8287)
   || (c =? 12288))%N.

Fixpoint lstrip (s : str) : str :=
  match s with
  | c :: s' => if isspace c then lstrip s' else s
  | [] => []
  end.

Definition rstrip (s : str) : str := reverse (lstrip (reverse s)).

(** [s.strip()] *)
Definition strip (s : str) : str := rstrip (lstrip s).

(** What [json.loads] returns. *)
#[warnings="-register-all"] Inductive json : Type :=
  | JNone
  | JBool (b : bool)
  | JInt (z : Z)
  | JFloat (lexeme : string)
  | JStr (s : str)
  | JList (items : list json)
  | JDict (items : list (str * json)).

(** A text frame as the handler sees it: [json.loads(raw)] either returns a
    value or raises [JSONDecodeError]. *)
Inductive raw_text : Type :=
  | Json (data : json)
  | NotJson.

Inductive exn : Type :=
  | JSONDecodeError
  | AttributeError
  | ValueError
  | WebSocketDisconnect
  | RuntimeError
  | OperationalError.

Inductive result (A : Type) : Type :=
  | Ok (a : A)
  | Raise (e : exn).
Arguments Ok {A} a.
Arguments Raise {A} e.

(** ** The world *)

(** A [WebSocket] object; two of them are equal only when they are the same
    object, so a handle is the object's identity. *)
Definition WebSocket := nat.

(** One row of the [messages] table. *)
Record Row := mkRow {
  row_id : Z;
  row_username : string;
  row_content : str;
  row_timestamp : string
}.

(** One entry of a [history] event: the three selected columns. *)
Record Msg := mkMsg {
  username : string;
  content : str;
  timestamp : string
}.

(** The events the server sends, before serialisation. *)
Inductive Event : Type :=
  | History (messages : list Msg)
  | Message (sender : string) (text : str) (time : string)
  | Error (detail : string).

(** One call of [send_text] or [send_json]: the socket, the event and whether
    the call returned ([true]) or raised ([false]). *)
Record Transmission := Tx {
  dest : WebSocket;
  event : Event;
  delivered : bool
}.

Record World := mkWorld {
  sessions : gmap string string;
  active_connections : list WebSocket;
  messages_table : list Row;
  wire : list Transmission;
  accepted : list WebSocket;
  closed : list (WebSocket * Z)
}.

(** What the surroundings do while one piece of the handler runs. *)
Record Env := mkEnv {
  send_ok : WebSocket → bool;
  accept_ok : WebSocket → bool;
  db_ok : bool;
  utcnow : string
}.

(** ** Computations *)

Definition M (A : Type) : Type := Env → World → result A * World.

Definition ret {A} (a : A) : M A := λ _ w, (Ok a, w).

Definition bind {A B} (m : M A) (k : A → M B) : M B :=
  λ env w,
    match m env w with
    | (Ok a, w') => k a env w'
    | (Raise e, w') => (Raise e, w')
    end.

Definition raise {A} (e : exn) : M A := λ _ w, (Raise e, w).

(** [try: m  except Exception as e: handler e] *)
Definition try_except {A} (m : M A) (handler : exn → M A) : M A :=
  λ env w,
    match m env w with
    | (Ok a, w') => (Ok a, w')
    | (Raise e, w') => handler e env w'
    end.

(** Where a block stands once the frames of a trace are used up:
    [Returned] when it has been left, [Receiving] while it waits in
    [receive_text]. *)
Inductive progress : Type := Returned | Receiving.

(** [try: m  finally: cleanup]: the cleanup runs once the block is left,
    whether it returned or raised, and has not run while the block
    waits. *)
Definition try_finally (m : M progress) (cleanup : M unit) : M progress :=
  λ env w,
    match m env w with
    | (Ok Receiving, w') => (Ok Receiving, w')
    | (r, w') =>
        match cleanup env w' with
        | (Ok _, w'') => (r, w'')
        | (Raise e, w'') => (Raise e, w'')
        end
    end.

Definition ask : M Env := λ env w, (Ok env, w).
Definition get : M World := λ _ w, (Ok w, w).
Definition modify (f : World → World) : M unit := λ _ w, (Ok tt, f w).

Declare Scope M_scope.
Delimit Scope M_scope with M.
Notation "x <- m ;; k" := (bind m (λ x, k))
  (at level 100, m at next level, right associativity) : M_scope.
Notation "m ;;; k" := (bind m (λ _, k))
  (at level 100, right associativity) : M_scope.
Local Open Scope M_scope.

(** ** The transport *)

Definition set_active (l : list WebSocket) (w : World) : World :=
  mkWorld (sessions w) l (messages_table w) (wire w) (accepted w) (closed w).

Definition log_tx (t : Transmission) (w : World) : World :=
  mkWorld (sessions w) (active_connections w) (messages_table w)
          (wire w ++ [t]) (accepted w) (closed w).

(** [await websocket.send_text(...)] and [await websocket.send_json(...)]:
    the event reaches the peer, or the call raises. *)
Definition send (ws : WebSocket) (e : Event) : M unit :=
  env <- ask ;;
  modify (log_tx (Tx ws e (send_ok env ws))) ;;;
  if send_ok env ws then ret tt else raise WebSocketDisconnect.

Definition send_text := send.
Definition send_json := send.

(** ** [connection_manager.py] *)

Module ConnectionManager.

(** [l.remove(x)]: drops the first item equal to [x]; [ValueError] when
    there is none. *)
Fixpoint list_remove (x : WebSocket) (l : list WebSocket)
  : option (list WebSocket) :=
  match l with
  | [] => None
  | y :: l' =>
      if decide (x = y) then Some l'
      else (y ::.) <$> list_remove x l'
  end.

Definition remove (websocket : WebSocket) : M unit :=
  w <- get ;;
  match list_remove websocket (active_connections w) with
  | Some l => modify (set_active l)
  | None => raise ValueError
  end.

(** [connect]: [self.active_connections.append(websocket)] *)
Definition connect (websocket : WebSocket) : M unit :=
  modify (λ w, set_active (active_connections w ++ [websocket]) w).

Definition disconnect (websocket : WebSocket) : M unit :=
  w <- get ;;
  if decide (websocket ∈ active_connections w)
  then remove websocket
  else ret tt.

(** The first loop of [broadcast]: one [send_text] per item of the list,
    the sockets whose send raised collected in [dead]. *)
Fixpoint sweep (message : Event) (conns dead : list WebSocket)
  : M (list WebSocket) :=
  match conns with
  | [] => ret dead
  | connection :: rest =>
      dead' <- try_except
                 (send_text connection message ;;; ret dead)
                 (λ _, ret (dead ++ [connection])) ;;
      sweep message rest dead'
  end.

(** The second loop: [for d in dead: if d in ...: ....remove(d)]. *)
Fixpoint evict (dead : list WebSocket) : M unit :=
  match dead with
  | [] => ret tt
  | d :: rest =>
      w <- get ;;
      (if decide (d ∈ active_connections w) then remove d else ret tt) ;;;
      evict rest
  end.

Definition broadcast (message : Event) : M unit :=
  w <- get ;;
  dead <- sweep message (active_connections w) [] ;;
  evict dead.

End ConnectionManager.

(** ** [database.py] *)

Module Database.

Definition set_table (rows : list Row) (w : World) : World :=
  mkWorld (sessions w) (active_connections w) rows (wire w) (accepted w)
          (closed w).

(** [id INTEGER PRIMARY KEY AUTOINCREMENT]: the new row gets an id above
    every id of the table. *)
Definition next_id (rows : list Row) : Z :=
  1 + foldr (λ r m, Z.max (row_id r) m) 0 rows.

(** [INSERT INTO messages (username, content, timestamp) VALUES (?, ?, ?)]
    followed by [commit]; nothing is written when the database fails. *)
Definition insert_message (username : string) (content : str)
    (timestamp : string) : M unit :=
  env <- ask ;;
  if db_ok env
  then modify (λ w, set_table
                      (messages_table w ++
                         [mkRow (next_id (messages_table w))
                                username content timestamp]) w)
  else raise OperationalError.

(** [ORDER BY id DESC], as an insertion sort on the id column. *)
Fixpoint insert_desc (r : Row) (sorted : list Row) : list Row :=
  match sorted with
  | [] => [r]
  | x :: xs =>
      if row_id x <=? row_id r then r :: x :: xs
      else x :: insert_desc r xs
  end.

Definition order_by_id_desc (rows : list Row) : list Row :=
  foldr insert_desc [] rows.

(** [LIMIT ?]: SQLite takes a negative bound as no bound. *)
Definition sql_limit (n : Z) (rows : list Row) : list Row :=
  if n <? 0 then rows else take (Z.to_nat n) rows.

Definition select_last (limit : Z) (rows : list Row) : list Row :=
  sql_limit limit (order_by_id_desc rows).

Definition as_dict (row : Row) : Msg :=
  mkMsg (row_username row) (row_content row) (row_timestamp row).

(** The list comprehension over [reversed(rows)]. *)
Definition last_messages (limit : Z) (rows : list Row) : list Msg :=
  as_dict <$> reverse (select_last limit rows).

Definition get_last_messages (limit : Z) : M (list Msg) :=
  env <- ask ;;
  w <- get ;;
  if db_ok env
  then ret (last_messages limit (messages_table w))
  else raise OperationalError.

End Database.

(** ** [main.py]: the websocket handler *)

(** What [await websocket.receive_text()] does: a text frame, the peer's
    close, or any other failure. *)
Inductive received : Type :=
  | Text (raw : raw_text)
  | Disconnected
  | ReceiveError.

Definition receive_text (r : received) : M raw_text :=
  match r with
  | Text raw => ret raw
  | Disconnected => raise WebSocketDisconnect
  | ReceiveError => raise RuntimeError
  end.

Definition json_loads (raw : raw_text) : M json :=
  match raw with
  | Json data => ret data
  | NotJson => raise JSONDecodeError
  end.

Definition str_eqb (a b : str) : bool := bool_decide (a = b).

(** [d[key]] on the items of a dict. *)
Fixpoint dict_lookup (key : str) (items : list (str * json)) : option json :=
  match items with
  | [] => None
  | (k, v) :: rest => if str_eqb key k then Some v else dict_lookup key rest
  end.

(** [data.get(key, default)]: only a dict has the method. *)
Definition dict_get (data : json) (key : str) (default : json) : M json :=
  match data with
  | JDict items => ret (from_option id default (dict_lookup key items))
  | _ => raise AttributeError
  end.

(** [value.strip()]: only a [str] has the method. *)
Definition str_strip (value : json) : M str :=
  match value with
  | JStr s => ret (strip s)
  | _ => raise AttributeError
  end.

(** [await websocket.accept()] *)
Definition accept (ws : WebSocket) : M unit :=
  env <- ask ;;
  if accept_ok env ws
  then modify (λ w, mkWorld (sessions w) (active_connections w)
                            (messages_table w) (wire w) (accepted w ++ [ws])
                            (closed w))
  else raise RuntimeError.

(** [await websocket.close(code=..., reason=...)] *)
Definition close (ws : WebSocket) (code : Z) : M unit :=
  modify (λ w, mkWorld (sessions w) (active_connections w)
                       (messages_table w) (wire w) (accepted w)
                       (closed w ++ [(ws, code)])).

(** Run [m] while the surroundings are [env]. *)
Definition during {A} (env : Env) (m : M A) : M A := λ _ w, m env w.

(** The block under [VALIDATE MESSAGE FORMAT] (lines 166-197).  [None] is
    the [continue] of a refused frame, [Some content] falls through to the
    rest of the loop body. *)
Definition validate (websocket : WebSocket) (raw : raw_text)
  : M (option str) :=
  try_except
    (data <- json_loads raw ;;
     value <- dict_get data (lit "content") (JStr []) ;;
     content <- str_strip value ;;
     if bool_decide (content = [])
     then send_json websocket (Error "Message cannot be empty") ;;;
          ret None
     else if 5000 <? len content
     then send_json websocket
                    (Error "Message too long (max 5000 characters)") ;;;
          ret None
     else ret (Some content))
    (λ e,
       match e with
       | JSONDecodeError =>
           send_json websocket (Error "Invalid message format") ;;;
           ret None
       | _ =>
           send_json websocket (Error "Invalid message format") ;;;
           ret None
       end).

(** The loop body after [receive_text] has returned (lines 165-231). *)
Definition handle_text (websocket : WebSocket) (username : string)
    (raw : raw_text) : M unit :=
  checked <- validate websocket raw ;;
  match checked with
  | None => ret tt
  | Some content =>
      env <- ask ;;
      let timestamp := utcnow env in
      saved <- try_except
                 (Database.insert_message username content timestamp ;;;
                  ret true)
                 (λ _,
                    send_json websocket (Error "Failed to save message") ;;;
                    ret false) ;;
      if saved : bool
      then try_except
             (ConnectionManager.broadcast
                (Message username content timestamp))
             (λ _, ret tt)
      else ret tt
  end.

Inductive control : Type := Continue | Break.

(** One turn of [while True] (lines 162-238): every exception that reaches
    the outer handlers leaves the loop. *)
Definition iteration (websocket : WebSocket) (username : string)
    (r : received) : M control :=
  try_except
    (raw <- receive_text r ;;
     handle_text websocket username raw ;;;
     ret Continue)
    (λ e,
       match e with
       | WebSocketDisconnect => ret Break
       | _ => ret Break
       end).

(** [while True], run against a trace: each turn has its own surroundings
    and its own outcome of [receive_text]. *)
Fixpoint message_loop (websocket : WebSocket) (username : string)
    (ticks : list (Env * received)) : M progress :=
  match ticks with
  | [] => ret Receiving
  | (env, r) :: rest =>
      c <- during env (iteration websocket username r) ;;
      match c with
      | Continue => message_loop websocket username rest
      | Break => ret Returned
      end
  end.

(** The block under [SEND CHAT HISTORY] (lines 150-158): a failure is
    logged and goes no further. *)
Definition send_chat_history (websocket : WebSocket) : M unit :=
  try_except
    (history <- Database.get_last_messages 50 ;;
     send_json websocket (History history))
    (λ _, ret tt).

(** The states of one connection of the gateway. *)
Inductive status : Type := Rejected | Active | Closed.

(** [websocket_endpoint] (lines 130-246).  A handler that still waits in
    [receive_text] at the end of the trace is [Active]; one that has left
    the [try] statement is [Closed]. *)
Definition websocket_endpoint (websocket : WebSocket) (token : string)
    (ticks : list (Env * received)) : M status :=
  w <- get ;;
  match sessions w !! token with
  | None =>
      close websocket 1008 ;;;
      ret Rejected
  | Some username =>
      p <- try_finally
             (try_except
                (accept websocket ;;;
                 ConnectionManager.connect websocket ;;;
                 send_chat_history websocket ;;;
                 message_loop websocket username ticks)
                (λ e,
                   match e with
                   | WebSocketDisconnect => ret Returned
                   | _ => ret Returned
                   end))
             (ConnectionManager.disconnect websocket) ;;
      ret (match p with
           | Receiving => Active
           | Returned => Closed
           end)
  end.

(** The dicts behind the events: the literals of [main.py] (lines 152-155,
    171-174, 220-225) and the entries [get_last_messages] builds.  What
    [json.dumps] writes of such a dict, [json.loads] reads back as the
    same dict, so this is also what a client decodes. *)
Definition msg_json (m : Msg) : json :=
  JDict [(lit "username", JStr (lit (username m)));
         (lit "content", JStr (content m));
         (lit "timestamp", JStr (lit (timestamp m)))].

Definition to_json (e : Event) : json :=
  match e with
  | History messages =>
      JDict [(lit "type", JStr (lit "history"));
             (lit "messages", JList (msg_json <$> messages))]
  | Message sender text time =>
      JDict [(lit "type", JStr (lit "message"));
             (lit "username", JStr (lit sender));
             (lit "content", JStr text);
             (lit "timestamp", JStr (lit time))]
  | Error detail =>
      JDict [(lit "type", JStr (lit "error"));
             (lit "detail", JStr (lit detail))]
  end.

(** ** [main.py]: the HTTP handlers *)

Module Http.

(** What a handler can end with besides its reply: an [HTTPException], which
    FastAPI turns into a response with that status, or an exception nobody
    catches. *)
Inductive http_exn : Type :=
  | HTTPException (status_code : Z) (detail : string)
  | DatabaseError
  | IntegrityError
  | UnboundLocalError.

Inductive outcome (A : Type) : Type :=
  | Replied (a : A)
  | Failed (e : http_exn).
Arguments Replied {A} a.
Arguments Failed {A} e.

(** One row of the [users] table. *)
Record UserRow := mkUserRow {
  user_id : Z;
  user_name : string;
  user_password_hash : string
}.

(** The body of a [UserRegister] or [UserLogin] request: the two fields the
    handlers read.  [models.py] is not among the sources. *)
Record User := mkUser {
  user_username : string;
  user_password : string
}.

(** The server with its accounts. *)
Record Site := mkSite {
  world : World;
  users_table : list UserRow
}.

(** What the surroundings do during one request.  [security.py] is not
    among the sources: its two functions are taken as they come. *)
Record HttpEnv := mkHttpEnv {
  connect_ok : bool;
  execute_ok : bool;
  hash_password : string → string;
  verify_password : string → string → bool;
  uuid4 : string
}.

Definition H (A : Type) : Type := HttpEnv → Site → outcome A * Site.

Definition hret {A} (a : A) : H A := λ _ s, (Replied a, s).

Definition hbind {A B} (m : H A) (k : A → H B) : H B :=
  λ env s,
    match m env s with
    | (Replied a, s') => k a env s'
    | (Failed e, s') => (Failed e, s')
    end.

Definition hraise {A} (e : http_exn) : H A := λ _ s, (Failed e, s).

Definition htry_except {A} (m : H A) (handler : http_exn → H A) : H A :=
  λ env s,
    match m env s with
    | (Replied a, s') => (Replied a, s')
    | (Failed e, s') => handler e env s'
    end.

(** [try: m  finally: cleanup]: an exception of the cleanup takes the place
    of whatever the block ended with. *)
Definition htry_finally {A} (m : H A) (cleanup : H unit) : H A :=
  λ env s,
    match m env s with
    | (r, s') =>
        match cleanup env s' with
        | (Replied _, s'') => (r, s'')
        | (Failed e, s'') => (Failed e, s'')
        end
    end.

Definition hask : H HttpEnv := λ env s, (Replied env, s).
Definition hget : H Site := λ _ s, (Replied s, s).
Definition hmodify (f : Site → Site) : H unit := λ _ s, (Replied tt, f s).

Declare Scope H_scope.
Delimit Scope H_scope with H.
Notation "x <- m ;; k" := (hbind m (λ x, k))
  (at level 100, m at next level, right associativity) : H_scope.
Notation "m ;;; k" := (hbind m (λ _, k))
  (at level 100, right associativity) : H_scope.
Local Open Scope H_scope.

(** [conn = get_connection()] and [cur = conn.cursor()] *)
Definition get_connection : H unit :=
  env <- hask ;;
  if connect_ok env then hret tt else hraise DatabaseError.

(** [conn.close()], for a [conn] that is bound only when [get_connection]
    has returned. *)
Definition conn_close : H unit :=
  env <- hask ;;
  if connect_ok env then hret tt else hraise UnboundLocalError.

Definition next_user_id (users : list UserRow) : Z :=
  1 + foldr (λ u m, Z.max (user_id u) m) 0 users.

(** [INSERT INTO users (username, password_hash) VALUES (?, ?)] and
    [commit], under [username TEXT UNIQUE]. *)
Definition insert_user (name hash : string) : H unit :=
  env <- hask ;;
  s <- hget ;;
  if execute_ok env
  then if bool_decide (name ∈ user_name <$> users_table s)
       then hraise IntegrityError
       else hmodify (λ s, mkSite (world s)
                            (users_table s ++
                               [mkUserRow (next_user_id (users_table s))
                                          name hash]))
  else hraise DatabaseError.

(** [SELECT password_hash FROM users WHERE username = ?] and [fetchone]. *)
Definition select_password_hash (name : string) : H (option string) :=
  env <- hask ;;
  s <- hget ;;
  if execute_ok env
  then hret ((λ found, user_password_hash found.2) <$>
               list_find (λ u, user_name u = name) (users_table s))
  else hraise DatabaseError.

(** [len] of a name or a password, held with one character per byte. *)
Definition strlen (s : string) : Z := Z.of_nat (String.length s).

(** [register] (lines 54-82) *)
Definition register (user : User) : H json :=
  htry_finally
    (htry_except
       (get_connection ;;;
        if strlen (user_username user) <? 3
        then hraise (HTTPException 400
                       "Username must be at least 3 characters")
        else if strlen (user_password user) <? 6
        then hraise (HTTPException 400
                       "Password must be at least 6 characters")
        else
          env <- hask ;;
          insert_user (user_username user)
                      (hash_password env (user_password user)))
       (λ e,
          match e with
          | HTTPException status_code detail =>
              hraise (HTTPException status_code detail)
          | _ => hraise (HTTPException 400 "User already exists")
          end))
    conn_close ;;;
  hret (JDict [(lit "message", JStr (lit "User registered successfully"))]).

Definition set_session (token name : string) (s : Site) : Site :=
  mkSite (mkWorld (<[token := name]> (sessions (world s)))
                  (active_connections (world s))
                  (messages_table (world s)) (wire (world s))
                  (accepted (world s)) (closed (world s)))
         (users_table s).

(** [login] (lines 86-113) *)
Definition login (user : User) : H json :=
  htry_except
    (get_connection ;;;
     row <- select_password_hash (user_username user) ;;
     env <- hask ;;
     match row with
     | None => hraise (HTTPException 401 "Invalid credentials")
     | Some hash =>
         if verify_password env (user_password user) hash
         then
           let token := uuid4 env in
           hmodify (set_session token (user_username user)) ;;;
           hret (JDict [(lit "token", JStr (lit token))])
         else hraise (HTTPException 401 "Invalid credentials")
     end)
    (λ e,
       match e with
       | HTTPException status_code detail =>
           hraise (HTTPException status_code detail)
       | _ => hraise (HTTPException 500 "Internal server error")
       end).

End Http.

(** ** [clients/client.py] *)

Module Client.

Inductive client_exn : Type :=
  | KeyError
  | TypeError
  | AttributeError
  | JSONDecodeError.

(** The built-in [str] on a decoded value that is not a string. *)
Record Builtins := mkBuiltins { py_str : json → str }.

(** A computation that prints: the lines printed so far go in and come
    out. *)
Definition P (A : Type) : Type := list str → (A + client_exn) * list str.

Definition pret {A} (a : A) : P A := λ out, (inl a, out).

Definition pbind {A B} (m : P A) (k : A → P B) : P B :=
  λ out,
    match m out with
    | (inl a, out') => k a out'
    | (inr e, out') => (inr e, out')
    end.

Definition praise {A} (e : client_exn) : P A := λ out, (inr e, out).

(** [print(text)] *)
Definition print (text : str) : P unit := λ out, (inl tt, out ++ [text]).

Declare Scope P_scope.
Delimit Scope P_scope with P.
Notation "x <- m ;; k" := (pbind m (λ x, k))
  (at level 100, m at next level, right associativity) : P_scope.
Notation "m ;;; k" := (pbind m (λ _, k))
  (at level 100, right associativity) : P_scope.
Local Open Scope P_scope.

(** The payload of [send_messages] for one line of input (lines 14-18). *)
Definition payload (text : str) : json :=
  JDict [(lit "content", JStr text)].

(** [data[key]] *)
Definition getitem (data : json) (key : str) : P json :=
  match data with
  | JDict items =>
      match dict_lookup key items with
      | Some v => pret v
      | None => praise KeyError
      end
  | _ => praise TypeError
  end.

(** [data.get(key)] *)
Definition get_or_none (data : json) (key : str) : P json :=
  match data with
  | JDict items => pret (default JNone (dict_lookup key items))
  | _ => praise AttributeError
  end.

(** What [for msg in value] goes through. *)
Definition iterate (value : json) : P (list json) :=
  match value with
  | JList items => pret items
  | JStr s => pret ((λ c, JStr [c]) <$> s)
  | JDict items => pret ((λ kv, JStr kv.1) <$> items)
  | _ => praise TypeError
  end.

(** A value inside an f-string. *)
Definition format_value (b : Builtins) (v : json) : str :=
  match v with
  | JStr s => s
  | _ => py_str b v
  end.

(** [f"[{d['timestamp']}] {d['username']}: {d['content']}"] *)
Definition chat_line (b : Builtins) (d : json) : P str :=
  t <- getitem d (lit "timestamp") ;;
  u <- getitem d (lit "username") ;;
  c <- getitem d (lit "content") ;;
  pret (lit "[" ++ format_value b t ++ lit "] " ++ format_value b u
        ++ lit ": " ++ format_value b c).

Fixpoint print_history (b : Builtins) (msgs : list json) : P unit :=
  match msgs with
  | [] => pret tt
  | msg :: rest =>
      line <- chat_line b msg ;;
      print line ;;;
      print_history b rest
  end.

Definition is_type (v : json) (name : string) : bool :=
  match v with
  | JStr s => bool_decide (s = lit name)
  | _ => false
  end.

(** One turn of the loop of [receive_messages] (lines 23-41). *)
Definition receive_one (b : Builtins) (raw : raw_text) : P unit :=
  data <- match raw with
          | Json data => pret data
          | NotJson => praise JSONDecodeError
          end ;;
  msg_type <- get_or_none data (lit "type") ;;
  if is_type msg_type "history" then
    print (10%N :: lit "--- Chat History ---") ;;;
    messages <- getitem data (lit "messages") ;;
    msgs <- iterate messages ;;
    print_history b msgs ;;;
    print (lit "--------------------" ++ [10%N])
  else if is_type msg_type "message" then
    line <- chat_line b data ;;
    print line
  else if is_type msg_type "error" then
    detail <- getitem data (lit "detail") ;;
    print (lit "[Error] " ++ format_value b detail)
  else
    print (lit "[Unknown message] " ++ py_str b data).

End Client.

(** * Vocabulary of the statements *)

(** The list without its first [x]; the list itself when [x] is absent. *)
Definition without (x : WebSocket) (l : list WebSocket) : list WebSocket :=
  default l (ConnectionManager.list_remove x l).

Definition occurrences (x : WebSocket) (l : list WebSocket) : nat :=
  length (filter (λ c, c = x) l).

(** The sends of one sweep over [conns], in the order of the list. *)
Definition transmissions (env : Env) (message : Event)
    (conns : list WebSocket) : list Transmission :=
  (λ c, Tx c message (send_ok env c)) <$> conns.

(** The sockets of [conns] whose send returned. *)
Definition survivors (env : Env) (conns : list WebSocket)
  : list WebSocket :=
  filter (λ c, send_ok env c = true) conns.

Definition set_wire (t : list Transmission) (w : World) : World :=
  mkWorld (sessions w) (active_connections w) (messages_table w) t
          (accepted w) (closed w).

(** Calls of the registry from outside, for statements about sequences of
    them. *)
Inductive registry_op : Type :=
  | Admit (ws : WebSocket)
  | Remove (ws : WebSocket).

Definition apply_op (op : registry_op) : M unit :=
  match op with
  | Admit ws => ConnectionManager.connect ws
  | Remove ws => ConnectionManager.disconnect ws
  end.

Fixpoint run_ops (ops : list registry_op) : M unit :=
  match ops with
  | [] => ret tt
  | op :: rest => apply_op op ;;; run_ops rest
  end.

(** No [Admit] of the sequence names a socket that is in the list when the
    call is made. *)
Fixpoint admits_fresh (ops : list registry_op) (env : Env) (w : World)
  : Prop :=
  match ops with
  | [] => True
  | op :: rest =>
      match op with
      | Admit ws => ws ∉ active_connections w
      | Remove _ => True
      end
      ∧ admits_fresh rest env (apply_op op env w).2
  end.

(** Surroundings in which nothing fails, and the world at start-up. *)
Definition calm : Env :=
  mkEnv (λ _, true) (λ _, true) true "2024-05-01T12:00:00".

Definition startup : World := mkWorld ∅ [] [] [] [] [].

(** The rows are listed in the order of their insertion, with growing
    ids. *)
Definition ids_ascending (rows : list Row) : Prop :=
  StronglySorted (λ a b, row_id a < row_id b) rows.

(** No two rows share an id, as [PRIMARY KEY] demands. *)
Definition ids_unique (rows : list Row) : Prop :=
  NoDup (row_id <$> rows).

(** Orders on rows by their ids. *)
Definition not_newer (a b : Row) : Prop := row_id a ≤ row_id b.
Definition older (a b : Row) : Prop := row_id a < row_id b.

(** The rows a history of bound [limit] is made of, in the order of the
    event. *)
Definition chosen_rows (limit : Z) (rows : list Row) : list Row :=
  reverse (Database.select_last limit rows).

(** How the validation block takes a frame: the three refusals, named
    after the error each one sends, or the content it lets through. *)
Inductive verdict : Type :=
  | Malformed
  | Empty
  | TooLong
  | Accepted (content : str).

Definition judge (raw : raw_text) : verdict :=
  match raw with
  | NotJson => Malformed
  | Json (JDict items) =>
      match dict_lookup (lit "content") items with
      | None => Empty
      | Some (JStr s) =>
          if bool_decide (strip s = []) then Empty
          else if 5000 <? len (strip s) then TooLong
          else Accepted (strip s)
      | Some _ => Malformed
      end
  | Json _ => Malformed
  end.

Definition complaint (v : verdict) : string :=
  match v with
  | Malformed => "Invalid message format"
  | Empty => "Message cannot be empty"
  | TooLong => "Message too long (max 5000 characters)"
  | Accepted _ => "Invalid message format"
  end.

(** The world after a send to [ws] that returned. *)
Definition told (ws : WebSocket) (e : Event) (w : World) : World :=
  log_tx (Tx ws e true) w.

(** The world after a frame of [username] went through: one more row, one
    sweep of the list. *)
Definition relayed (env : Env) (username : string) (content : str)
    (w : World) : World :=
  mkWorld (sessions w)
          (survivors env (active_connections w))
          (messages_table w ++
             [mkRow (Database.next_id (messages_table w)) username content
                    (utcnow env)])
          (wire w ++
             transmissions env (Message username content (utcnow env))
                           (active_connections w))
          (accepted w) (closed w).

(** A frame that is no JSON text, or JSON but no object, or an object
    whose [content] is there and is not a string. *)
Definition ill_formed (raw : raw_text) : bool :=
  match raw with
  | NotJson => true
  | Json (JDict items) =>
      match dict_lookup (lit "content") items with
      | Some (JStr _) => false
      | Some _ => true
      | None => false
      end
  | Json _ => true
  end.

(** A JSON object without a [content] key. *)
Definition lacks_content (raw : raw_text) : bool :=
  match raw with
  | Json (JDict items) =>
      match dict_lookup (lit "content") items with
      | None => true
      | Some _ => false
      end
  | _ => false
  end.

(** The letter [a], [n] times. *)
Definition letters (n : Z) : str := replicate (Z.to_nat n) 97%N.

(** The frame [{"content": s}]. *)
Definition frame_of (s : str) : raw_text :=
  Json (JDict [(lit "content", JStr s)]).

(** Neither the first nor the last character of [s] is white space. *)
Definition no_surrounding_space (s : str) : Prop :=
  (∀ c, head s = Some c → isspace c = false)
  ∧ (∀ c, last s = Some c → isspace c = false).

(** A table of 60 rows, as 60 insertions leave it. *)
Definition sixty_rows : list Row :=
  (λ i, mkRow i "alice" (lit "hello") "2024-05-01T12:00:00") <$> seqZ 1 60.

(** A running server: one session, two members. *)
Definition two_members : World :=
  mkWorld {[ "token-a" := "alice" ]} [1; 2]%nat [] [] [1; 2]%nat [].

(** A content as the handler lets it through: trimmed, not empty, of 5000
    characters at most. *)
Definition well_formed_content (c : str) : Prop :=
  c ≠ [] ∧ len c ≤ 5000 ∧ no_surrounding_space c.

(** The clocks of the turns of a trace. *)
Definition clocks_of (ticks : list (Env * received)) : list string :=
  (λ tick, utcnow tick.1) <$> ticks.

(** A row as the handler of [username] writes it during turns with these
    clocks. *)
Definition written_by (username : string) (clocks : list string) (r : Row)
  : Prop :=
  row_username r = username
  ∧ row_timestamp r ∈ clocks
  ∧ well_formed_content (row_content r).

(** A send as the handler of [ws] and [username] makes it: a message in
    the name of the user, or something else for its own socket. *)
Definition proper_tx (ws : WebSocket) (username : string)
    (clocks : list string) (t : Transmission) : Prop :=
  match event t with
  | Message sender text time =>
      sender = username ∧ time ∈ clocks ∧ well_formed_content text
  | History _ => dest t = ws
  | Error _ => dest t = ws
  end.

(** How the world may differ after turns of the loop of [ws] and
    [username]. *)
Definition handled (ws : WebSocket) (username : string)
    (clocks : list string) (w w' : World) : Prop :=
  sessions w' = sessions w
  ∧ closed w' = closed w
  ∧ accepted w' = accepted w
  ∧ (∃ rows,
        messages_table w' = messages_table w ++ rows
        ∧ Forall (written_by username clocks) rows
        ∧ (length rows ≤ length clocks)%nat)
  ∧ (ids_ascending (messages_table w) → ids_ascending (messages_table w'))
  ∧ (∃ txs,
        wire w' = wire w ++ txs
        ∧ Forall (proper_tx ws username clocks) txs
        ∧ ∀ h, h ∈ active_connections w → h ∉ active_connections w' →
               ∃ e, Tx h e false ∈ txs)
  ∧ (∀ h, (occurrences h (active_connections w')
           ≤ occurrences h (active_connections w))%nat).

(** A second session, for statements about two connections. *)
Definition two_sessions : World :=
  mkWorld {[ "token-a" := "alice"; "token-b" := "bob" ]} [1; 2]%nat []
          [] [1; 2]%nat [].

(** Surroundings in which the socket [3] cannot be written to. *)
Definition deaf_to_three : Env :=
  mkEnv (λ ws, negb (Nat.eqb ws 3)) (λ _, true) true "2024-05-01T12:00:05".

(** A trace: a greeting, an empty object while the socket cannot be
    written to, and a frame that is never read. *)
Definition sample_ticks : list (Env * received) :=
  [(calm, Text (frame_of (lit "hi")));
   (deaf_to_three, Text (Json (JDict [])));
   (calm, Text (frame_of (lit "unread")))].

(** A security module for examples: the hash of a password is the
    password behind a prefix. *)
Definition sample_http : Http.HttpEnv :=
  Http.mkHttpEnv true true (String.append "hashed:")
    (λ password hash, bool_decide (String.append "hashed:" password = hash))
    "3f2b8c1e-0000-4000-8000-000000000001".

(** A site with one account. *)
Definition one_account : Http.Site :=
  Http.mkSite two_members [Http.mkUserRow 1 "alice" "hashed:wonderland"].

(** The names of the accounts. *)
Definition user_names (s : Http.Site) : list string :=
  Http.user_name <$> Http.users_table s.

(** What the client prints for an event of the server. *)
Definition shown_line (m : Msg) : str :=
  lit "[" ++ lit (timestamp m) ++ lit "] " ++ lit (username m) ++ lit ": "
  ++ content m.

Definition shown (e : Event) : list str :=
  match e with
  | History messages =>
      [10%N :: lit "--- Chat History ---"] ++ (shown_line <$> messages)
      ++ [lit "--------------------" ++ [10%N]]
  | Message sender text time => [shown_line (mkMsg sender text time)]
  | Error detail => [lit "[Error] " ++ lit detail]
  end.

(** A [str] built-in for examples. *)
Definition sample_builtins : Client.Builtins :=
  Client.mkBuiltins (λ _, lit "{...}").

(** Frames of the shape [{"content": s}], each with the surroundings of
    its turn, as a trace of the loop. *)
Definition frames_ticks (frames : list (Env * str))
  : list (Env * received) :=
  (λ f, (f.1, Text (frame_of f.2))) <$> frames.

(** The frame passes the validation, its row can be written and the
    socket [h] can be written to. *)
Definition taken_and_heard (h : WebSocket) (f : Env * str) : Prop :=
  db_ok f.1 = true ∧ send_ok f.1 h = true
  ∧ strip f.2 ≠ [] ∧ len (strip f.2) ≤ 5000.

(** * Properties *)

(** Unfolds the plumbing of a computation applied to its surroundings and
    its world. *)
Ltac run :=
  unfold send_json, send_text, send, bind, ret, raise, try_except, ask, get,
    modify, during in *;
  simpl in *.

(** Case analysis on whether the send to [ws] returns. *)
Ltac by_send env ws :=
  let Hsend := fresh "Hsend" in
  destruct (send_ok env ws) eqn:Hsend; simpl; rewrite ?Hsend; done.

Lemma set_active_same w : set_active (active_connections w) w = w.
Proof. by destruct w. Qed.

(** ** The registry *)

Section Registry.
Import ConnectionManager.

Lemma list_remove_elem x l : x ∈ l → is_Some (list_remove x l).
Proof.
  induction l as [|y l IH]; simpl.
  - by intros ?%not_elem_of_nil.
  - intros Hin. destruct (decide (x = y)) as [->|Hne]; [by eexists|].
    apply elem_of_cons in Hin as [?|Hin]; [done|].
    destruct (IH Hin) as [l' ->]. by eexists.
Qed.

Lemma list_remove_not_elem x l : x ∉ l → list_remove x l = None.
Proof.
  induction l as [|y l IH]; simpl; [done|].
  intros Hnin. apply not_elem_of_cons in Hnin as [Hne Hnin].
  rewrite decide_False by done. by rewrite IH.
Qed.

Lemma list_remove_middle x pre l :
  x ∉ pre → list_remove x (pre ++ x :: l) = Some (pre ++ l).
Proof.
  induction pre as [|y pre IH]; simpl.
  - intros _. by rewrite decide_True.
  - intros Hnin. apply not_elem_of_cons in Hnin as [Hne Hnin].
    rewrite decide_False by done. by rewrite IH.
Qed.

Lemma without_not_elem x l : x ∉ l → without x l = l.
Proof. intros H. unfold without. by rewrite list_remove_not_elem. Qed.

Lemma without_middle x pre l : x ∉ pre → without x (pre ++ x :: l) = pre ++ l.
Proof. intros H. unfold without. by rewrite list_remove_middle. Qed.

Lemma without_cons_eq x l : without x (x :: l) = l.
Proof. unfold without. simpl. by rewrite decide_True. Qed.

Lemma without_cons_ne x y l : x ≠ y → without x (y :: l) = y :: without x l.
Proof.
  intros Hne. unfold without. simpl. rewrite decide_False by done.
  by destruct (list_remove x l).
Qed.

Lemma occurrences_cons x y l :
  occurrences x (y :: l) =
  (if decide (y = x) then S (occurrences x l) else occurrences x l).
Proof.
  unfold occurrences. rewrite filter_cons. by destruct (decide (y = x)).
Qed.

Lemma occurrences_app x l1 l2 :
  occurrences x (l1 ++ l2) = (occurrences x l1 + occurrences x l2)%nat.
Proof. unfold occurrences. by rewrite filter_app, length_app. Qed.

Lemma occurrences_zero x l : occurrences x l = 0%nat ↔ x ∉ l.
Proof.
  induction l as [|y l IH]; rewrite ?occurrences_cons.
  - split; [intros _; apply not_elem_of_nil | done].
  - rewrite not_elem_of_cons. destruct (decide (y = x)) as [->|Hne].
    + split; [done | by intros [? _]].
    + rewrite IH. split; [by intros ? | by intros [_ ?]].
Qed.

Lemma occurrences_without_eq x l :
  occurrences x (without x l) = pred (occurrences x l).
Proof.
  induction l as [|y l IH]; [done|].
  destruct (decide (x = y)) as [<-|Hne].
  - rewrite without_cons_eq, occurrences_cons. by case_decide.
  - rewrite without_cons_ne by done. rewrite !occurrences_cons.
    case_decide; [congruence | done].
Qed.

Lemma occurrences_without_ne x y l :
  x ≠ y → occurrences y (without x l) = occurrences y l.
Proof.
  intros Hxy. induction l as [|z l IH]; [done|].
  destruct (decide (x = z)) as [<-|Hne].
  - rewrite without_cons_eq, occurrences_cons. case_decide; [congruence | done].
  - rewrite without_cons_ne by done. rewrite !occurrences_cons.
    by rewrite IH.
Qed.

Lemma without_sublist x l : without x l `sublist_of` l.
Proof.
  induction l as [|y l IH]; [done|].
  destruct (decide (x = y)) as [<-|Hne].
  - rewrite without_cons_eq. by apply sublist_cons.
  - rewrite without_cons_ne by done. by apply sublist_skip.
Qed.

Lemma without_NoDup x l : NoDup l → NoDup (without x l).
Proof. intros H. eapply sublist_NoDup; [done | apply without_sublist]. Qed.

Lemma without_NoDup_gone x l : NoDup l → x ∉ without x l.
Proof.
  intros Hnd. apply occurrences_zero. rewrite occurrences_without_eq.
  destruct (decide (x ∈ l)) as [Hin|Hnin].
  - apply list_elem_of_split in Hin as (l1 & l2 & ->).
    apply NoDup_app in Hnd as (_ & Hdisj & Hnd2).
    apply NoDup_cons in Hnd2 as [Hx2 _].
    rewrite occurrences_app, occurrences_cons, decide_True by done.
    assert (occurrences x l1 = 0%nat) as ->.
    { apply occurrences_zero. intros Hx1. apply (Hdisj x Hx1).
      apply elem_of_cons. by left. }
    assert (occurrences x l2 = 0%nat) as -> by by apply occurrences_zero.
    done.
  - apply occurrences_zero in Hnin. by rewrite Hnin.
Qed.

(** *** What each method does to the world *)

Lemma connect_run ws env w :
  connect ws env w = (Ok tt, set_active (active_connections w ++ [ws]) w).
Proof. done. Qed.

Lemma remove_run ws env w :
  ws ∈ active_connections w →
  remove ws env w = (Ok tt, set_active (without ws (active_connections w)) w).
Proof.
  intros [l Hl]%list_remove_elem. unfold remove, without. run.
  by rewrite Hl.
Qed.

Lemma disconnect_run ws env w :
  disconnect ws env w =
  (Ok tt, set_active (without ws (active_connections w)) w).
Proof.
  unfold disconnect. run.
  destruct (decide (ws ∈ active_connections w)) as [Hin|Hnin].
  - by apply remove_run.
  - by rewrite without_not_elem, set_active_same.
Qed.

Lemma sweep_run message conns dead env w :
  sweep message conns dead env w =
  (Ok (dead ++ filter (λ c, send_ok env c = false) conns),
   set_wire (wire w ++ transmissions env message conns) w).
Proof.
  revert dead w. induction conns as [|c conns IH]; intros dead w.
  - simpl. unfold ret, set_wire. rewrite !app_nil_r. by destruct w.
  - simpl. run. rewrite filter_cons.
    destruct (send_ok env c) eqn:Hc; simpl; rewrite IH; simpl.
    + unfold set_wire; simpl. by rewrite <-app_assoc.
    + unfold set_wire; simpl. by rewrite <-!app_assoc.
Qed.

Lemma evict_run dead env w :
  evict dead env w =
  (Ok tt, set_active (foldl (λ l d, without d l) (active_connections w) dead) w).
Proof.
  revert w. induction dead as [|d dead IH]; intros w; simpl.
  - unfold ret. by rewrite set_active_same.
  - run. destruct (decide (d ∈ active_connections w)) as [Hin|Hnin].
    + rewrite remove_run by done. rewrite IH. by destruct w.
    + unfold ret. rewrite IH. by rewrite without_not_elem.
Qed.

(** Dropping, one first occurrence at a time, the failed sockets in the
    order the sweep met them leaves exactly the sockets whose send
    returned, in their order. *)
Lemma evict_failed env pre l :
  Forall (λ c, send_ok env c = true) pre →
  foldl (λ l d, without d l) (pre ++ l)
        (filter (λ c, send_ok env c = false) l)
  = pre ++ survivors env l.
Proof.
  revert pre. induction l as [|x l IH]; intros pre Hpre.
  - done.
  - unfold survivors in *. rewrite !filter_cons.
    destruct (send_ok env x) eqn:Hx; simpl.
    + change (x :: ?k) with ([x] ++ k). rewrite !(app_assoc pre).
      apply IH. apply Forall_app; split; [done|]. by apply Forall_singleton.
    + rewrite without_middle; [by apply IH|].
      intros Hin. rewrite Forall_forall in Hpre.
      specialize (Hpre _ Hin). congruence.
Qed.

Lemma broadcast_run message env w :
  broadcast message env w =
  (Ok tt,
   mkWorld (sessions w) (survivors env (active_connections w))
           (messages_table w)
           (wire w ++ transmissions env message (active_connections w))
           (accepted w) (closed w)).
Proof.
  unfold broadcast. run. rewrite sweep_run. simpl. rewrite evict_run. simpl.
  pose proof (evict_failed env [] (active_connections w)) as Hev.
  simpl in Hev. by rewrite Hev.
Qed.

(** *** Broadcast *)

(** C1. [broadcast] calls [send_text] with the payload once for every item
    of the list, in order and whatever the earlier sends did; it returns
    normally; the list is as it was when the last send is over, and is
    purged only then; afterwards it holds exactly the sockets whose send
    returned, so a socket whose send raised is no longer a member and every
    other member still is.  Nothing else of the world changes. *)
Theorem broadcast_sweeps_all_and_evicts_failed message env w :
  ∃ w',
    broadcast message env w = (Ok tt, w')
    ∧ wire w' = wire w ++ transmissions env message (active_connections w)
    ∧ length (transmissions env message (active_connections w))
      = length (active_connections w)
    ∧ (∃ dead w1,
          sweep message (active_connections w) [] env w = (Ok dead, w1)
          ∧ active_connections w1 = active_connections w
          ∧ wire w1 = wire w'
          ∧ evict dead env w1 = (Ok tt, w'))
    ∧ active_connections w' = survivors env (active_connections w)
    ∧ (∀ c, c ∈ active_connections w → send_ok env c = false →
            Tx c message false ∈ transmissions env message (active_connections w)
            ∧ c ∉ active_connections w')
    ∧ (∀ c, c ∈ active_connections w → send_ok env c = true →
            Tx c message true ∈ transmissions env message (active_connections w)
            ∧ c ∈ active_connections w')
    ∧ messages_table w' = messages_table w
    ∧ sessions w' = sessions w.
Proof.
  eexists. split; [apply broadcast_run|]. simpl.
  split; [done|]. split; [unfold transmissions; by rewrite length_fmap|].
  split.
  { eexists _, _. split; [apply sweep_run|]. simpl.
    split; [done|]. split; [done|].
    rewrite evict_run. simpl.
    pose proof (evict_failed env [] (active_connections w)) as Hev.
    simpl in Hev. by rewrite Hev. }
  split; [done|]. split; [|split; [|done]].
  - intros c Hin Hc. split.
    + unfold transmissions. apply list_elem_of_fmap. exists c. by rewrite Hc.
    + unfold survivors. rewrite list_elem_of_filter. intros [? _]. congruence.
  - intros c Hin Hc. split.
    + unfold transmissions. apply list_elem_of_fmap. exists c. by rewrite Hc.
    + unfold survivors. by rewrite list_elem_of_filter.
Qed.

(** *** Admission *)

Lemma run_ops_cons op ops env w :
  run_ops (op :: ops) env w = run_ops ops env (apply_op op env w).2.
Proof.
  destruct op as [ws|ws]; [done|].
  cbn [run_ops apply_op]. unfold bind. by rewrite disconnect_run.
Qed.

(** C2, as the code has it. [connect] appends: admitting a socket adds one
    occurrence of it whether or not it is a member.  The list is free of
    duplicates after every sequence of [connect] and [disconnect] calls
    that starts from such a list and never admits a socket that is a
    member at that moment. *)
Theorem fresh_admits_keep_members_distinct ops env w :
  NoDup (active_connections w) →
  admits_fresh ops env w →
  ∃ w',
    run_ops ops env w = (Ok tt, w')
    ∧ NoDup (active_connections w')
    ∧ ∀ ws, ∃ w'',
        connect ws env w' = (Ok tt, w'')
        ∧ active_connections w'' = active_connections w' ++ [ws]
        ∧ occurrences ws (active_connections w'')
          = S (occurrences ws (active_connections w')).
Proof.
  revert w. induction ops as [|op ops IH]; intros w Hnd Hfresh.
  - exists w. repeat split; [done|].
    intros ws. eexists. split; [apply connect_run|]. simpl. split; [done|].
    rewrite occurrences_app, occurrences_cons, decide_True by done.
    unfold occurrences at 2. simpl. lia.
  - rewrite run_ops_cons. destruct Hfresh as [Hop Hfresh].
    apply IH; [|done].
    destruct op as [ws|ws]; simpl.
    + apply NoDup_app. repeat split; [done| |apply NoDup_singleton].
      intros x Hx ->%list_elem_of_singleton. done.
    + rewrite disconnect_run. simpl. by apply without_NoDup.
Qed.

Lemma fresh_admits_keep_members_distinct_witness :
  ∃ w',
    run_ops [Admit 1; Admit 2; Remove 1; Admit 1]%nat calm startup = (Ok tt, w')
    ∧ NoDup (active_connections w')
    ∧ ∀ ws, ∃ w'',
        connect ws calm w' = (Ok tt, w'')
        ∧ active_connections w'' = active_connections w' ++ [ws]
        ∧ occurrences ws (active_connections w'')
          = S (occurrences ws (active_connections w')).
Proof.
  apply (fresh_admits_keep_members_distinct
           [Admit 1; Admit 2; Remove 1; Admit 1]%nat calm startup).
  - simpl. apply NoDup_nil_2.
  - vm_compute. repeat split; intros H; inversion H; subst;
      repeat match goal with
             | H : _ ∈ _ |- _ => inversion H; clear H; subst
             end.
Defined.

(** C2, as stated, fails: a second [connect] of a member is not a no-op
    and leaves the socket twice in the list. *)
Lemma readmission_duplicates :
  ∃ w1 w2,
    connect 7%nat calm startup = (Ok tt, w1)
    ∧ 7%nat ∈ active_connections w1
    ∧ connect 7%nat calm w1 = (Ok tt, w2)
    ∧ active_connections w2 = [7; 7]%nat
    ∧ active_connections w2 ≠ active_connections w1
    ∧ ¬ NoDup (active_connections w2).
Proof.
  eexists _, _. split; [reflexivity|]. split; [|split; [reflexivity|]].
  - simpl. apply list_elem_of_singleton. done.
  - simpl. split; [done|]. split; [done|].
    intros [Hnin _]%NoDup_cons. apply Hnin, list_elem_of_singleton. done.
Qed.

(** *** A socket connected more than once *)

(** The sends of a sweep that go to [h]: one per occurrence of [h]. *)
Lemma transmissions_to h env message conns :
  filter (λ t, dest t = h) (transmissions env message conns)
  = replicate (occurrences h conns) (Tx h message (send_ok env h)).
Proof.
  induction conns as [|c conns IH]; [done|].
  unfold transmissions in *. rewrite fmap_cons, filter_cons, occurrences_cons.
  simpl. destruct (decide (c = h)) as [->|Hne]; simpl; by rewrite IH.
Qed.

(** C10. When a socket is twice in the list, a broadcast sends the payload
    to it twice; one [disconnect] takes one occurrence away, so that the
    socket is still a member and the next broadcast still sends to it,
    once; and [disconnect] of a socket that is not in the list changes
    nothing. *)
Theorem twice_connected_socket h message env w :
  occurrences h (active_connections w) = 2%nat →
  (∃ w1,
      broadcast message env w = (Ok tt, w1)
      ∧ filter (λ t, dest t = h) (drop (length (wire w)) (wire w1))
        = [Tx h message (send_ok env h); Tx h message (send_ok env h)])
  ∧ (∃ w2,
        disconnect h env w = (Ok tt, w2)
        ∧ occurrences h (active_connections w2) = 1%nat
        ∧ h ∈ active_connections w2
        ∧ ∀ message' env', ∃ w3,
            broadcast message' env' w2 = (Ok tt, w3)
            ∧ filter (λ t, dest t = h) (drop (length (wire w2)) (wire w3))
              = [Tx h message' (send_ok env' h)])
  ∧ (∀ h' env', h' ∉ active_connections w → disconnect h' env' w = (Ok tt, w)).
Proof.
  intros Htwice. split; [|split].
  - eexists. split; [apply broadcast_run|]. simpl.
    by rewrite drop_app_length, transmissions_to, Htwice.
  - eexists. split; [apply disconnect_run|]. simpl.
    assert (occurrences h (without h (active_connections w)) = 1%nat) as Hone.
    { rewrite occurrences_without_eq, Htwice. done. }
    split; [done|]. split.
    + destruct (decide (h ∈ without h (active_connections w))) as [|Hnin];
        [done|]. apply occurrences_zero in Hnin. congruence.
    + intros message' env'. eexists. split; [apply broadcast_run|]. simpl.
      by rewrite drop_app_length, transmissions_to, Hone.
  - intros h' env' Hnin. rewrite disconnect_run, without_not_elem by done.
    by rewrite set_active_same.
Qed.

Lemma twice_connected_socket_witness :
  let w := set_active [4; 9; 4]%nat startup in
  (∃ w1,
      broadcast (Error "x") calm w = (Ok tt, w1)
      ∧ filter (λ t, dest t = 4%nat) (drop (length (wire w)) (wire w1))
        = [Tx 4%nat (Error "x") (send_ok calm 4%nat);
           Tx 4%nat (Error "x") (send_ok calm 4%nat)])
  ∧ (∃ w2,
        disconnect 4%nat calm w = (Ok tt, w2)
        ∧ occurrences 4%nat (active_connections w2) = 1%nat
        ∧ 4%nat ∈ active_connections w2
        ∧ ∀ message' env', ∃ w3,
            broadcast message' env' w2 = (Ok tt, w3)
            ∧ filter (λ t, dest t = 4%nat)
                     (drop (length (wire w2)) (wire w3))
              = [Tx 4%nat message' (send_ok env' 4%nat)])
  ∧ (∀ h' env', h' ∉ active_connections w → disconnect h' env' w = (Ok tt, w)).
Proof.
  apply (twice_connected_socket 4%nat (Error "x") calm
           (set_active [4; 9; 4]%nat startup)).
  reflexivity.
Defined.

End Registry.


(** ** The message log *)

Section MessageLog.
Import Database.

Lemma next_id_above rows :
  Forall (λ r, row_id r < next_id rows) rows.
Proof.
  unfold next_id. induction rows as [|r rows IH]; [done|].
  simpl. constructor; [lia|].
  eapply Forall_impl; [exact IH|]. simpl. intros; lia.
Qed.

Lemma ids_ascending_snoc rows r :
  ids_ascending rows →
  Forall (λ x, row_id x < row_id r) rows →
  ids_ascending (rows ++ [r]).
Proof.
  unfold ids_ascending. induction 1 as [|x rows Hrows IH Hx]; intros Hall.
  - simpl. by repeat constructor.
  - apply Forall_cons in Hall as [Hxr Hall]. simpl. constructor.
    + by apply IH.
    + apply Forall_app. split; [done|]. by constructor.
Qed.

(** An insertion keeps the ids growing. *)
Lemma insert_message_keeps_ascending username content timestamp env w :
  ids_ascending (messages_table w) →
  ids_ascending
    (messages_table (insert_message username content timestamp env w).2).
Proof.
  intros Hasc. unfold insert_message. run.
  destruct (db_ok env); simpl; [|done].
  apply ids_ascending_snoc; [done|]. apply next_id_above.
Qed.

Lemma insert_desc_smallest r sorted :
  Forall (λ x, row_id r < row_id x) sorted →
  insert_desc r sorted = sorted ++ [r].
Proof.
  induction 1 as [|x sorted Hx _ IH]; [done|].
  simpl. destruct (row_id x <=? row_id r) eqn:Hle; [lia|]. by rewrite IH.
Qed.

(** On a table with growing ids, [ORDER BY id DESC] is the table read
    backwards. *)
Lemma order_by_id_desc_ascending rows :
  ids_ascending rows → order_by_id_desc rows = reverse rows.
Proof.
  unfold order_by_id_desc. induction 1 as [|r rows Hrows IH Hr]; [done|].
  simpl. rewrite IH, reverse_cons. apply insert_desc_smallest.
  rewrite Forall_forall in Hr |- *. intros x Hx. apply Hr.
  by rewrite elem_of_reverse in Hx.
Qed.


(** *** [ORDER BY id DESC LIMIT ?] on any table *)

Lemma insert_desc_perm r sorted : insert_desc r sorted ≡ₚ r :: sorted.
Proof.
  induction sorted as [|x xs IH]; [done|]. simpl.
  destruct (row_id x <=? row_id r); [done|].
  rewrite IH. apply Permutation_swap.
Qed.

Lemma order_by_id_desc_perm rows : order_by_id_desc rows ≡ₚ rows.
Proof.
  unfold order_by_id_desc. induction rows as [|r rows IH]; [done|].
  simpl. by rewrite insert_desc_perm, IH.
Qed.

Lemma insert_desc_sorted r sorted :
  StronglySorted (flip not_newer) sorted →
  StronglySorted (flip not_newer) (insert_desc r sorted).
Proof.
  unfold flip, not_newer.
  induction 1 as [|x xs Hxs IH Hx]; simpl; [by repeat constructor|].
  destruct (row_id x <=? row_id r) eqn:Hle.
  - apply Z.leb_le in Hle. constructor; [by constructor|].
    constructor; [done|]. eapply Forall_impl; [exact Hx|].
    simpl. intros; lia.
  - apply Z.leb_gt in Hle. constructor; [done|].
    rewrite Forall_forall in Hx |- *. intros y Hy.
    rewrite insert_desc_perm in Hy. apply elem_of_cons in Hy as [->|Hy].
    + lia.
    + by apply Hx.
Qed.

Lemma order_by_id_desc_sorted rows :
  StronglySorted (flip not_newer) (order_by_id_desc rows).
Proof.
  unfold order_by_id_desc. induction rows as [|r rows IH]; simpl.
  - constructor.
  - by apply insert_desc_sorted.
Qed.

Lemma StronglySorted_reverse {A} (R : relation A) l :
  StronglySorted R l → StronglySorted (flip R) (reverse l).
Proof.
  induction 1 as [|x l Hl IH Hx]; [constructor|].
  rewrite reverse_cons. apply StronglySorted_app_2.
  - intros y z Hy ->%list_elem_of_singleton. unfold flip.
    rewrite Forall_forall in Hx. apply Hx. by rewrite elem_of_reverse in Hy.
  - done.
  - repeat constructor.
Qed.

(** What the query selects, whatever the order and the ids of the rows:
    as many rows as the bound allows, taken from the table, ordered by
    id, with every row left out not newer than any row taken. *)
Lemma chosen_rows_spec limit rows :
  0 ≤ limit →
  length (chosen_rows limit rows) = min (Z.to_nat limit) (length rows)
  ∧ chosen_rows limit rows ⊆+ rows
  ∧ StronglySorted not_newer (chosen_rows limit rows)
  ∧ (∀ r r', r ∈ rows → r ∉ chosen_rows limit rows →
             r' ∈ chosen_rows limit rows → not_newer r r').
Proof.
  intros Hlimit. unfold chosen_rows, select_last, sql_limit.
  destruct (limit <? 0) eqn:Hneg; [lia|].
  pose proof (order_by_id_desc_perm rows) as Hperm.
  pose proof (order_by_id_desc_sorted rows) as Hsorted.
  set (sorted := order_by_id_desc rows) in *.
  set (n := Z.to_nat limit).
  rewrite <-(take_drop n sorted) in Hsorted.
  repeat split.
  - rewrite length_reverse, length_take. by rewrite (Permutation_length Hperm).
  - rewrite reverse_Permutation, <-Hperm. apply submseteq_take.
  - apply (StronglySorted_reverse (flip not_newer)).
    by apply StronglySorted_app_1_l in Hsorted.
  - intros r r' Hr Hout Hin. rewrite elem_of_reverse in Hout, Hin.
    rewrite <-Hperm, <-(take_drop n sorted) in Hr.
    apply elem_of_app in Hr as [?|Hr]; [done|].
    apply (StronglySorted_app_1_elem_of _ _ _ r' r Hsorted Hin Hr).
Qed.

(** With ids that are unique the order is strict. *)
Lemma chosen_rows_strict limit rows :
  0 ≤ limit →
  ids_unique rows →
  StronglySorted older (chosen_rows limit rows)
  ∧ (∀ r r', r ∈ rows → r ∉ chosen_rows limit rows →
             r' ∈ chosen_rows limit rows → older r r').
Proof.
  intros Hlimit Huniq.
  destruct (chosen_rows_spec limit rows Hlimit) as (_ & Hsub & Hsorted & Hrest).
  assert (∀ a b l1 l2, rows ≡ₚ l1 ++ l2 → a ∈ l1 → b ∈ l2 →
                       row_id a ≠ row_id b) as Hdistinct.
  { intros a b l1 l2 Hperm Ha Hb Heq. unfold ids_unique in Huniq.
    rewrite Hperm, fmap_app in Huniq.
    apply NoDup_app in Huniq as (_ & Hdisj & _).
    apply (Hdisj (row_id a)).
    - apply list_elem_of_fmap. by exists a.
    - apply list_elem_of_fmap. by exists b. }
  split.
  - destruct (submseteq_Permutation _ _ Hsub) as [k Hk].
    assert (ids_unique (chosen_rows limit rows)) as Hu.
    { unfold ids_unique in *. rewrite Hk, fmap_app in Huniq.
      by apply NoDup_app in Huniq as (? & _ & _). }
    clear -Hsorted Hu. unfold ids_unique in Hu.
    induction Hsorted as [|x l Hl IH Hx]; [constructor|].
    rewrite fmap_cons in Hu. apply NoDup_cons in Hu as [Hxl Hu].
    constructor; [by apply IH|].
    rewrite Forall_forall in Hx |- *. intros y Hy.
    specialize (Hx y Hy). unfold not_newer, older in *.
    assert (row_id x ≠ row_id y); [|lia].
    intros Heq. apply Hxl. rewrite Heq. apply list_elem_of_fmap. by exists y.
  - intros r r' Hr Hout Hin. specialize (Hrest r r' Hr Hout Hin).
    unfold not_newer, older in *.
    assert (row_id r' ≠ row_id r); [|lia].
    destruct (submseteq_Permutation _ _ Hsub) as [k Hk].
    apply (Hdistinct r' r _ k Hk Hin).
    rewrite Hk in Hr. apply elem_of_app in Hr as [?|?]; done.
Qed.

(** On a table listed by growing ids these are its last rows. *)
Lemma chosen_rows_ascending limit rows :
  0 ≤ limit →
  ids_ascending rows →
  chosen_rows limit rows = drop (length rows - Z.to_nat limit) rows.
Proof.
  intros Hlimit Hasc. unfold chosen_rows, select_last, sql_limit.
  destruct (limit <? 0) eqn:Hneg; [lia|].
  rewrite order_by_id_desc_ascending by done.
  by rewrite take_reverse, reverse_involutive.
Qed.

End MessageLog.

(** ** Trimming *)

Lemma lstrip_id s :
  (∀ c, head s = Some c → isspace c = false) → lstrip s = s.
Proof.
  destruct s as [|c s]; [done|]. intros Hhead. simpl.
  by rewrite (Hhead c).
Qed.

Lemma lstrip_length s : (length (lstrip s) ≤ length s)%nat.
Proof.
  induction s as [|c s IH]; [done|]. simpl.
  destruct (isspace c); simpl; lia.
Qed.

Lemma lstrip_shorter s c :
  head s = Some c → isspace c = true → (length (lstrip s) < length s)%nat.
Proof.
  destruct s as [|c' s]; [done|]. intros [= ->] Hc. simpl. rewrite Hc.
  pose proof (lstrip_length s). lia.
Qed.

Lemma rstrip_length s : (length (rstrip s) ≤ length s)%nat.
Proof.
  unfold rstrip. rewrite length_reverse.
  pose proof (lstrip_length (reverse s)) as Hle.
  by rewrite length_reverse in Hle.
Qed.

(** Trimming never makes a string longer. *)
Lemma strip_length s : (length (strip s) ≤ length s)%nat.
Proof.
  unfold strip. pose proof (rstrip_length (lstrip s)).
  pose proof (lstrip_length s). lia.
Qed.

(** [strip] returns its argument exactly when there is nothing to trim. *)
Lemma strip_id s : strip s = s ↔ no_surrounding_space s.
Proof.
  split.
  - intros Hfix. split; intros c Hc.
    + destruct (isspace c) eqn:Hspace; [|done].
      pose proof (lstrip_shorter s c Hc Hspace).
      pose proof (rstrip_length (lstrip s)).
      apply (f_equal length) in Hfix. unfold strip in Hfix. lia.
    + destruct (isspace c) eqn:Hspace; [|done].
      assert (length (rstrip s) < length s)%nat.
      { unfold rstrip. rewrite length_reverse.
        rewrite <-(length_reverse s). apply (lstrip_shorter _ c); [|done].
        by rewrite head_reverse. }
      destruct (decide (lstrip s = s)) as [Heq|Hne].
      * apply (f_equal length) in Hfix. unfold strip in Hfix.
        rewrite Heq in Hfix. lia.
      * apply (f_equal length) in Hfix. unfold strip in Hfix.
        pose proof (rstrip_length (lstrip s)).
        pose proof (lstrip_length s).
        assert (length (lstrip s) ≠ length s); [|lia].
        intros Hlen. apply Hne. clear -Hlen.
        destruct s as [|c' s]; [done|]. simpl in *.
        destruct (isspace c'); [|done].
        pose proof (lstrip_length s). lia.
  - intros [Hhead Hlast]. unfold strip, rstrip.
    rewrite (lstrip_id s) by done.
    rewrite (lstrip_id (reverse s)); [apply reverse_involutive|].
    intros c. rewrite head_reverse. apply Hlast.
Qed.

(** ** The gateway *)

Section Gateway.
Import ConnectionManager Database.

(** What the validation block does with a frame, refusal by refusal.  When
    the send of a refusal raises inside the [try], the handler of
    [Exception] sends its own error, which raises in turn. *)
Lemma validate_run ws raw env w :
  validate ws raw env w =
  match judge raw with
  | Accepted content => (Ok (Some content), w)
  | Malformed =>
      if send_ok env ws
      then (Ok None, told ws (Error "Invalid message format") w)
      else (Raise WebSocketDisconnect,
            log_tx (Tx ws (Error "Invalid message format") false) w)
  | v =>
      if send_ok env ws
      then (Ok None, told ws (Error (complaint v)) w)
      else (Raise WebSocketDisconnect,
            log_tx (Tx ws (Error "Invalid message format") false)
                   (log_tx (Tx ws (Error (complaint v)) false) w))
  end.
Proof.
  unfold validate, judge, told.
  destruct raw as [data|]; [destruct data as [| | | | |?|items]|];
    run; try by_send env ws.
  destruct (dict_lookup (lit "content") items) as [value|]; simpl.
  - destruct value; simpl; try by_send env ws.
    case_bool_decide as Hempty; simpl.
    + by_send env ws.
    + destruct (5000 <? len (strip s)); simpl; [|done].
      by_send env ws.
  - by_send env ws.
Qed.

(** One turn of the loop on a text frame, case by case. *)
Lemma iteration_text ws username raw env w :
  iteration ws username (Text raw) env w =
  match judge raw with
  | Accepted content =>
      if db_ok env
      then (Ok Continue, relayed env username content w)
      else if send_ok env ws
      then (Ok Continue, told ws (Error "Failed to save message") w)
      else (Ok Break,
            log_tx (Tx ws (Error "Failed to save message") false) w)
  | Malformed =>
      if send_ok env ws
      then (Ok Continue, told ws (Error "Invalid message format") w)
      else (Ok Break,
            log_tx (Tx ws (Error "Invalid message format") false) w)
  | v =>
      if send_ok env ws
      then (Ok Continue, told ws (Error (complaint v)) w)
      else (Ok Break,
            log_tx (Tx ws (Error "Invalid message format") false)
                   (log_tx (Tx ws (Error (complaint v)) false) w))
  end.
Proof.
  unfold iteration, handle_text. cbn [receive_text].
  unfold try_except at 1. unfold bind at 1. unfold ret at 1.
  unfold bind at 1. unfold bind at 1. rewrite validate_run.
  destruct (judge raw) as [| | |content]; try by_send env ws.
  unfold insert_message. run. unfold relayed, told.
  destruct (db_ok env); simpl.
  - by rewrite broadcast_run.
  - by_send env ws.
Qed.

(** A failed [receive_text] leaves the loop and touches nothing. *)
Lemma iteration_no_text ws username r env w :
  (∀ raw, r ≠ Text raw) → iteration ws username r env w = (Ok Break, w).
Proof. intros Hr. destruct r; [by destruct (Hr raw) | done | done]. Qed.

(** A frame that is refused, or that the database does not take, leaves
    no row and reaches no other socket, whether or not its sender takes
    the error event; the loop goes on exactly when the sender does. *)
Lemma refusal_stays_local ws username raw env w :
  (∀ content, judge raw ≠ Accepted content) ∨ db_ok env = false →
  ∃ c w' sent,
    iteration ws username (Text raw) env w = (Ok c, w')
    ∧ wire w' = wire w ++ sent
    ∧ Forall (λ t, dest t = ws ∧ ∃ detail, event t = Error detail) sent
    ∧ messages_table w' = messages_table w
    ∧ active_connections w' = active_connections w
    ∧ (c = Continue ↔ send_ok env ws = true).
Proof.
  intros Hrefused. rewrite iteration_text.
  destruct (judge raw) as [| | |content] eqn:Hj.
  4:{ destruct Hrefused as [Hno|Hdb]; [by destruct (Hno content)|].
      rewrite Hdb. destruct (send_ok env ws);
        eexists _, _, [_]; (split; [reflexivity|]); simpl;
        repeat split; try done; repeat constructor; eauto. }
  all: destruct (send_ok env ws).
  all: try (eexists _, _, [_]; (split; [reflexivity|]); simpl;
            repeat split; try done; repeat constructor; by eauto).
  all: eexists _, _, [_; _]; (split; [reflexivity|]); simpl;
       rewrite <-?app_assoc; repeat split; try done;
       repeat constructor; eauto.
Qed.

Lemma message_loop_cons ws username env r rest env0 w :
  message_loop ws username ((env, r) :: rest) env0 w =
  match iteration ws username r env w with
  | (Ok Continue, w') => message_loop ws username rest env0 w'
  | (Ok Break, w') => (Ok Returned, w')
  | (Raise e, w') => (Raise e, w')
  end.
Proof.
  cbn [message_loop]. unfold bind, during.
  by destruct (iteration ws username r env w) as [[[]|] ?].
Qed.

(** *** Frames that are refused *)




(** A content of 5001 spaces is longer than 5000 characters as well; it is
    refused as empty, not as too long. *)
Example content_of_5001_spaces_is_refused_as_empty :
  judge (frame_of (replicate (Z.to_nat 5001) 32%N)) = Empty.
Proof. by vm_compute. Qed.

(** C3. When the frame is valid and the insertion fails, the sender gets
    the error event [Failed to save message], no other socket gets
    anything, no row is written, the list of members is as it was, and the
    loop goes on to the next frame.  The socket is assumed to take the
    event. *)
Theorem unsaved_message_is_not_broadcast
    ws username items s env w rest env0 :
  dict_lookup (lit "content") items = Some (JStr s) →
  strip s ≠ [] →
  len (strip s) ≤ 5000 →
  db_ok env = false →
  send_ok env ws = true →
  ∃ w',
    iteration ws username (Text (Json (JDict items))) env w = (Ok Continue, w')
    ∧ wire w' = wire w ++ [Tx ws (Error "Failed to save message") true]
    ∧ messages_table w' = messages_table w
    ∧ active_connections w' = active_connections w
    ∧ message_loop ws username
        ((env, Text (Json (JDict items))) :: rest) env0 w
      = message_loop ws username rest env0 w'.
Proof.
  intros Hcontent Hfilled Hshort Hdb Hsend.
  pose proof (iteration_text ws username (Json (JDict items)) env w) as Hrun.
  rewrite message_loop_cons. simpl in Hrun. rewrite Hcontent in Hrun.
  rewrite bool_decide_eq_false_2 in Hrun by done.
  apply Z.ltb_ge in Hshort. rewrite Hshort, Hdb, Hsend in Hrun. rewrite Hrun.
  eexists. split; [reflexivity|]. by repeat split.
Qed.

Lemma unsaved_message_is_not_broadcast_witness :
  let env := mkEnv (λ _, true) (λ _, true) false "2024-05-01T12:00:00" in
  ∃ w',
    iteration 1%nat "alice" (Text (Json (JDict [(lit "content",
                                                 JStr (lit " hello "))])))
              env two_members = (Ok Continue, w')
    ∧ wire w' = wire two_members ++
                [Tx 1%nat (Error "Failed to save message") true]
    ∧ messages_table w' = messages_table two_members
    ∧ active_connections w' = active_connections two_members
    ∧ message_loop 1%nat "alice"
        ((env, Text (Json (JDict [(lit "content", JStr (lit " hello "))])))
           :: []) calm two_members
      = message_loop 1%nat "alice" [] calm w'.
Proof.
  apply (unsaved_message_is_not_broadcast 1%nat "alice"
           [(lit "content", JStr (lit " hello "))] (lit " hello ")
           (mkEnv (λ _, true) (λ _, true) false "2024-05-01T12:00:00")
           two_members [] calm).
  - reflexivity.
  - vm_compute. discriminate.
  - vm_compute. discriminate.
  - reflexivity.
  - reflexivity.
Defined.

(** *** Frames of another shape *)

(** C6, as the code has it.  A frame that is no JSON text, no JSON object,
    or an object whose [content] is not a string is answered with [Invalid
    message format]; an object without a [content] key is taken as empty
    content and answered with [Message cannot be empty].  Either way the
    event goes to the sender and to no other socket, no row is written,
    nothing is broadcast and the loop goes on.  The socket is assumed to
    take the event. *)
Theorem frame_of_another_shape_is_answered_locally
    ws username raw env w rest env0 :
  ill_formed raw || lacks_content raw = true →
  send_ok env ws = true →
  ∃ w',
    iteration ws username (Text raw) env w = (Ok Continue, w')
    ∧ wire w' = wire w ++
        [Tx ws (Error (if lacks_content raw
                       then "Message cannot be empty"
                       else "Invalid message format")) true]
    ∧ messages_table w' = messages_table w
    ∧ active_connections w' = active_connections w
    ∧ message_loop ws username ((env, Text raw) :: rest) env0 w
      = message_loop ws username rest env0 w'.
Proof.
  intros Hshape Hsend.
  pose proof (iteration_text ws username raw env w) as Hrun.
  rewrite message_loop_cons.
  assert (judge raw = if lacks_content raw then Empty else Malformed) as Hj.
  { unfold judge, ill_formed, lacks_content in *.
    destruct raw as [data|]; [|done]. destruct data; try done.
    destruct (dict_lookup (lit "content") items) as [value|]; [|done].
    by destruct value. }
  rewrite Hj in Hrun.
  destruct (lacks_content raw); rewrite Hsend in Hrun; rewrite Hrun;
    eexists; (split; [reflexivity|]); by repeat split.
Qed.

Lemma frame_of_another_shape_is_answered_locally_witness :
  ∃ w',
    iteration 1%nat "alice" (Text (Json (JList [JStr (lit "hi")])))
              calm two_members = (Ok Continue, w')
    ∧ wire w' = wire two_members ++
        [Tx 1%nat
            (Error (if lacks_content (Json (JList [JStr (lit "hi")]))
                    then "Message cannot be empty"
                    else "Invalid message format")) true]
    ∧ messages_table w' = messages_table two_members
    ∧ active_connections w' = active_connections two_members
    ∧ message_loop 1%nat "alice"
        ((calm, Text (Json (JList [JStr (lit "hi")]))) :: []) calm two_members
      = message_loop 1%nat "alice" [] calm w'.
Proof.
  apply (frame_of_another_shape_is_answered_locally 1%nat "alice"
           (Json (JList [JStr (lit "hi")])) calm two_members [] calm);
    reflexivity.
Defined.

(** C6, as stated, fails on the object [{}]: it has no [content] string
    field, and the answer is [Message cannot be empty], not an event about
    the format. *)
Lemma object_without_content_is_reported_empty :
  ∃ w',
    iteration 1%nat "alice" (Text (Json (JDict []))) calm two_members
    = (Ok Continue, w')
    ∧ wire w' = [Tx 1%nat (Error "Message cannot be empty") true]
    ∧ ∀ t, t ∈ wire w' → event t ≠ Error "Invalid message format".
Proof.
  eexists. split; [reflexivity|]. split; [reflexivity|].
  intros t Ht. simpl in Ht. apply list_elem_of_singleton in Ht as ->.
  simpl. discriminate.
Qed.

Example content_number_is_invalid :
  (iteration 1%nat "alice" (Text (Json (JDict [(lit "content", JInt 5)])))
             calm two_members).2
  = told 1%nat (Error "Invalid message format") two_members.
Proof. reflexivity. Qed.

Example content_null_is_invalid :
  (iteration 1%nat "alice" (Text (Json (JDict [(lit "content", JNone)])))
             calm two_members).2
  = told 1%nat (Error "Invalid message format") two_members.
Proof. reflexivity. Qed.

Example garbage_is_invalid :
  (iteration 1%nat "alice" (Text NotJson) calm two_members).2
  = told 1%nat (Error "Invalid message format") two_members.
Proof. reflexivity. Qed.

Example blank_content_is_empty :
  (iteration 1%nat "alice" (Text (frame_of (lit "   "))) calm two_members).2
  = told 1%nat (Error "Message cannot be empty") two_members.
Proof. reflexivity. Qed.

(** *** Frames that are relayed *)

(** The length that counts is the one after trimming: 5000 letters after a
    space are 5001 characters, and the frame is taken. *)
Example padded_5001_is_taken :
  judge (frame_of (32%N :: letters 5000)) = Accepted (letters 5000).
Proof. by vm_compute. Qed.

(** A frame whose trimmed content is not empty and has at most 5000
    characters, on a database that takes the row. *)
Lemma accepted_frame_is_relayed ws username items s env w :
  dict_lookup (lit "content") items = Some (JStr s) →
  strip s ≠ [] →
  len (strip s) ≤ 5000 →
  db_ok env = true →
  iteration ws username (Text (Json (JDict items))) env w
  = (Ok Continue, relayed env username (strip s) w).
Proof.
  intros Hcontent Hfilled Hshort Hdb.
  rewrite iteration_text. simpl. rewrite Hcontent.
  rewrite bool_decide_eq_false_2 by done.
  apply Z.ltb_ge in Hshort. by rewrite Hshort, Hdb.
Qed.

(** C7, as the code has it.  A frame whose content has exactly 5000
    characters, counted after the trimming or counted as submitted, and is
    not empty once trimmed, is taken when the insertion succeeds: one row
    is added with the user of the session, the trimmed content and the
    server's clock as timestamp; the same three are sent to every member
    of the list; the loop goes on.  The trimmed content is the submitted
    one, character for character, exactly when the submitted content
    neither starts nor ends with white space. *)
Theorem content_of_5000_characters_is_relayed
    ws username items s env w rest env0 :
  dict_lookup (lit "content") items = Some (JStr s) →
  len (strip s) = 5000 ∨ (len s = 5000 ∧ strip s ≠ []) →
  db_ok env = true →
  ∃ w',
    iteration ws username (Text (Json (JDict items))) env w = (Ok Continue, w')
    ∧ messages_table w' = messages_table w ++
        [mkRow (next_id (messages_table w)) username (strip s) (utcnow env)]
    ∧ wire w' = wire w ++
        transmissions env (Message username (strip s) (utcnow env))
                      (active_connections w)
    ∧ (strip s = s ↔ no_surrounding_space s)
    ∧ message_loop ws username
        ((env, Text (Json (JDict items))) :: rest) env0 w
      = message_loop ws username rest env0 w'.
Proof.
  intros Hcontent Hlen Hdb.
  assert (strip s ≠ [] ∧ len (strip s) ≤ 5000) as [Hfilled Hshort].
  { destruct Hlen as [Hlen|[Hlen Hfilled]].
    - split; [|lia]. intros Hnil. rewrite Hnil in Hlen. done.
    - split; [done|]. pose proof (strip_length s). unfold len in *. lia. }
  rewrite message_loop_cons.
  rewrite (accepted_frame_is_relayed ws username items s) by done.
  eexists. split; [reflexivity|]. repeat split; by apply strip_id.
Qed.

Lemma content_of_5000_characters_is_relayed_witness :
  ∃ w',
    iteration 1%nat "alice"
      (Text (Json (JDict [(lit "content", JStr (letters 5000))])))
      calm two_members = (Ok Continue, w')
    ∧ messages_table w' = messages_table two_members ++
        [mkRow (next_id (messages_table two_members)) "alice"
               (strip (letters 5000)) (utcnow calm)]
    ∧ wire w' = wire two_members ++
        transmissions calm
          (Message "alice" (strip (letters 5000)) (utcnow calm))
          (active_connections two_members)
    ∧ (strip (letters 5000) = letters 5000 ↔
       no_surrounding_space (letters 5000))
    ∧ message_loop 1%nat "alice"
        ((calm, Text (Json (JDict [(lit "content", JStr (letters 5000))])))
           :: []) calm two_members
      = message_loop 1%nat "alice" [] calm w'.
Proof.
  apply (content_of_5000_characters_is_relayed 1%nat "alice"
           [(lit "content", JStr (letters 5000))] (letters 5000)
           calm two_members [] calm).
  - reflexivity.
  - left. vm_compute. reflexivity.
  - reflexivity.
Defined.

(** C7, as stated, fails on a content that starts with a space.  With 5000
    characters as submitted, the row and the broadcast hold the 4999
    letters that follow the space; with 5000 characters left after the
    trimming, they hold those 5000 and not the 5001 submitted. *)
Lemma padded_content_is_not_relayed_verbatim :
  (let submitted := 32%N :: letters 4999 in
   len submitted = 5000
   ∧ ∃ w',
       iteration 1%nat "alice" (Text (frame_of submitted)) calm two_members
       = (Ok Continue, w')
       ∧ row_content <$> messages_table w' = [letters 4999]
       ∧ event <$> wire w'
         = [Message "alice" (letters 4999) (utcnow calm);
            Message "alice" (letters 4999) (utcnow calm)]
       ∧ letters 4999 ≠ submitted)
  ∧ (let submitted := 32%N :: letters 5000 in
     len (strip submitted) = 5000
     ∧ ∃ w',
         iteration 1%nat "alice" (Text (frame_of submitted)) calm two_members
         = (Ok Continue, w')
         ∧ row_content <$> messages_table w' = [letters 5000]
         ∧ event <$> wire w'
           = [Message "alice" (letters 5000) (utcnow calm);
              Message "alice" (letters 5000) (utcnow calm)]
         ∧ letters 5000 ≠ submitted).
Proof.
  assert (∀ n, 0 < n ≤ 5000 → strip (32%N :: letters n) = letters n →
    ∃ w',
      iteration 1%nat "alice" (Text (frame_of (32%N :: letters n)))
                calm two_members = (Ok Continue, w')
      ∧ row_content <$> messages_table w' = [letters n]
      ∧ event <$> wire w'
        = [Message "alice" (letters n) (utcnow calm);
           Message "alice" (letters n) (utcnow calm)]
      ∧ letters n ≠ 32%N :: letters n) as Hpadded.
  { intros n Hn Hstrip. eexists. split.
    - unfold frame_of.
      rewrite (accepted_frame_is_relayed 1%nat "alice" _ (32%N :: letters n));
        [reflexivity | reflexivity | | | reflexivity].
      + rewrite Hstrip. unfold letters.
        destruct (Z.to_nat n) eqn:Hz; [lia | done].
      + rewrite Hstrip. unfold len, letters. rewrite length_replicate. lia.
    - simpl. rewrite Hstrip. repeat split.
      intros Heq. apply (f_equal length) in Heq. simpl in Heq. lia. }
  split.
  - split; [by vm_compute|]. apply Hpadded; [lia | by vm_compute].
  - split; [by vm_compute|]. apply Hpadded; [lia | by vm_compute].
Qed.

(** Counting the characters of the submitted text alone: 5000 spaces are
    5000 characters, and the frame is refused as empty. *)
Example content_of_5000_spaces_is_refused :
  ∃ w',
    iteration 1%nat "alice" (Text (frame_of (replicate (Z.to_nat 5000) 32%N)))
              calm two_members = (Ok Continue, w')
    ∧ messages_table w' = []
    ∧ wire w' = [Tx 1%nat (Error "Message cannot be empty") true].
Proof.
  assert (judge (frame_of (replicate (Z.to_nat 5000) 32%N)) = Empty) as Hj
    by by vm_compute.
  eexists. split.
  - rewrite iteration_text, Hj. reflexivity.
  - split; reflexivity.
Qed.

(** *** Admission *)

(** C4. With a token that is not a key of [sessions] the handler closes
    the socket with code 1008 and returns: the socket is not accepted, it
    is not added to the list, nothing is sent to it, and as long as it is
    not in the list no later broadcast sends to it either. *)
Theorem unknown_token_is_rejected ws token ticks env w :
  sessions w !! token = None →
  ∃ w',
    websocket_endpoint ws token ticks env w = (Ok Rejected, w')
    ∧ closed w' = closed w ++ [(ws, 1008)]
    ∧ accepted w' = accepted w
    ∧ active_connections w' = active_connections w
    ∧ wire w' = wire w
    ∧ messages_table w' = messages_table w
    ∧ (ws ∉ active_connections w →
       ∀ message env' t,
         t ∈ transmissions env' message (active_connections w') →
         dest t ≠ ws).
Proof.
  intros Hunknown. unfold websocket_endpoint, close. run. rewrite Hunknown.
  eexists. split; [reflexivity|]. simpl. repeat split.
  intros Hnin message env' t Ht Hdest.
  unfold transmissions in Ht. apply list_elem_of_fmap in Ht as (c & -> & Hc).
  simpl in Hdest. by subst c.
Qed.

Lemma unknown_token_is_rejected_witness :
  ∃ w',
    websocket_endpoint 3%nat "token-z" [(calm, Text (frame_of (lit "hi")))]
                       calm two_members = (Ok Rejected, w')
    ∧ closed w' = closed two_members ++ [(3%nat, 1008)]
    ∧ accepted w' = accepted two_members
    ∧ active_connections w' = active_connections two_members
    ∧ wire w' = wire two_members
    ∧ messages_table w' = messages_table two_members
    ∧ (3%nat ∉ active_connections two_members →
       ∀ message env' t,
         t ∈ transmissions env' message (active_connections w') →
         dest t ≠ 3%nat).
Proof.
  apply (unknown_token_is_rejected 3%nat "token-z"
           [(calm, Text (frame_of (lit "hi")))] calm two_members).
  vm_compute. reflexivity.
Defined.

(** C8. The history block never fails the handler.  When the table can
    be read it sends one [history] event to the new socket and nothing
    else.  Whatever the table holds, the event is made of at most 50 of
    its rows, exactly 50 when there are more; they come ordered by id, the
    oldest first, and no row left out is newer than a row of the event
    (strictly older, ids being unique).  When the table lists its rows by
    growing ids these are its last 50 rows in their order.  For every
    bound that is not negative [get_last_messages] returns that many rows
    at most. *)
Theorem history_is_recent_and_oldest_first ws env w :
  ∃ w',
    send_chat_history ws env w = (Ok tt, w')
    ∧ wire w' = wire w ++
        (if db_ok env
         then [Tx ws (History (as_dict <$> chosen_rows 50 (messages_table w)))
                  (send_ok env ws)]
         else [])
    ∧ (length (as_dict <$> chosen_rows 50 (messages_table w)) ≤ 50)%nat
    ∧ length (as_dict <$> chosen_rows 50 (messages_table w))
      = min 50 (length (messages_table w))
    ∧ chosen_rows 50 (messages_table w) ⊆+ messages_table w
    ∧ StronglySorted not_newer (chosen_rows 50 (messages_table w))
    ∧ (∀ r r', r ∈ messages_table w →
               r ∉ chosen_rows 50 (messages_table w) →
               r' ∈ chosen_rows 50 (messages_table w) → not_newer r r')
    ∧ (ids_unique (messages_table w) →
       StronglySorted older (chosen_rows 50 (messages_table w))
       ∧ ∀ r r', r ∈ messages_table w →
                 r ∉ chosen_rows 50 (messages_table w) →
                 r' ∈ chosen_rows 50 (messages_table w) → older r r')
    ∧ (ids_ascending (messages_table w) →
       chosen_rows 50 (messages_table w)
       = drop (length (messages_table w) - 50) (messages_table w))
    ∧ messages_table w' = messages_table w
    ∧ active_connections w' = active_connections w
    ∧ ∀ limit, 0 ≤ limit →
        last_messages limit (messages_table w)
        = as_dict <$> chosen_rows limit (messages_table w)
        ∧ len (last_messages limit (messages_table w)) ≤ limit.
Proof.
  destruct (chosen_rows_spec 50 (messages_table w))
    as (Hlen & Hsub & Hsorted & Hrest); [lia|].
  change (Z.to_nat 50) with 50%nat in Hlen.
  assert (∃ w',
    send_chat_history ws env w = (Ok tt, w')
    ∧ wire w' = wire w ++
        (if db_ok env
         then [Tx ws (History (as_dict <$> chosen_rows 50 (messages_table w)))
                  (send_ok env ws)]
         else [])
    ∧ messages_table w' = messages_table w
    ∧ active_connections w' = active_connections w)
    as (w' & Hrun & Hwire & Htable & Hactive).
  { unfold send_chat_history, get_last_messages. run.
    destruct (db_ok env); simpl.
    - destruct (send_ok env ws); simpl; by eexists.
    - eexists. by rewrite app_nil_r. }
  exists w'. split; [done|]. split; [done|].
  rewrite length_fmap.
  split; [lia|]. split; [done|]. split; [done|]. split; [done|].
  split; [done|].
  split; [by apply chosen_rows_strict|].
  split; [intros Hasc; by rewrite chosen_rows_ascending by done|].
  split; [done|]. split; [done|].
  intros limit Hlimit. split; [done|].
  unfold last_messages, len. fold (chosen_rows limit (messages_table w)).
  rewrite length_fmap.
  destruct (chosen_rows_spec limit (messages_table w) Hlimit) as (-> & _).
  lia.
Qed.

(** The newest two of three rows stored out of order. *)
Example history_of_two :
  last_messages 2
    [mkRow 7 "bob" (lit "second") "t7"; mkRow 3 "alice" (lit "first") "t3";
     mkRow 9 "carol" (lit "third") "t9"]
  = [mkMsg "bob" (lit "second") "t7"; mkMsg "carol" (lit "third") "t9"].
Proof. reflexivity. Qed.

(** Sixty rows: the event holds the fifty with ids 11 to 60. *)
Example history_of_sixty :
  length (last_messages 50 sixty_rows) = 50%nat
  ∧ row_id <$> chosen_rows 50 sixty_rows = seqZ 11 50.
Proof. split; by vm_compute. Qed.

(** *** Teardown *)

Lemma occurrences_survivors h env l :
  (occurrences h (survivors env l) ≤ occurrences h l)%nat.
Proof.
  unfold survivors. induction l as [|c l IH]; [done|].
  rewrite filter_cons. destruct (decide (send_ok env c = true)).
  - rewrite !occurrences_cons. case_decide; lia.
  - rewrite occurrences_cons. case_decide; lia.
Qed.

(** One turn of the loop never raises and never adds a member; it ends the
    loop when [receive_text] did not return a frame. *)
Lemma iteration_members ws username r env w :
  ∃ c w',
    iteration ws username r env w = (Ok c, w')
    ∧ (∀ h, occurrences h (active_connections w')
            ≤ occurrences h (active_connections w))%nat
    ∧ ((∀ raw, r ≠ Text raw) → c = Break).
Proof.
  destruct r as [raw| |].
  - rewrite iteration_text.
    destruct (judge raw), (db_ok env), (send_ok env ws);
      (eexists _, _; split; [reflexivity|]; simpl;
       split; [intros h; auto using occurrences_survivors
              | intros Hr; by destruct (Hr raw)]).
  - eexists _, _. by repeat split.
  - eexists _, _. by repeat split.
Qed.

Lemma message_loop_members ws username ticks env0 w :
  ∃ p w',
    message_loop ws username ticks env0 w = (Ok p, w')
    ∧ (∀ h, occurrences h (active_connections w')
            ≤ occurrences h (active_connections w))%nat
    ∧ (Exists (λ tick, ∀ raw, tick.2 ≠ Text raw) ticks → p = Returned).
Proof.
  revert w. induction ticks as [|[env r] ticks IH]; intros w.
  - eexists _, _. split; [reflexivity|]. split; [done|].
    by intros ?%Exists_nil.
  - rewrite message_loop_cons.
    destruct (iteration_members ws username r env w)
      as (c & w1 & -> & Hocc1 & Hbreak).
    destruct c.
    + destruct (IH w1) as (p & w2 & -> & Hocc2 & Hret).
      eexists _, _. split; [reflexivity|]. split.
      * intros h. specialize (Hocc1 h). specialize (Hocc2 h). lia.
      * intros [Hnow|Hlater]%Exists_cons; [|by apply Hret].
        simpl in Hnow. by specialize (Hbreak Hnow).
    + eexists _, _. by repeat split.
Qed.

Lemma send_chat_history_members ws env w :
  ∃ w',
    send_chat_history ws env w = (Ok tt, w')
    ∧ active_connections w' = active_connections w.
Proof.
  unfold send_chat_history, get_last_messages. run.
  destruct (db_ok env); simpl; [|by eexists].
  destruct (send_ok env ws); simpl; by eexists.
Qed.

(** C9. Whatever the frames, the failures of the transport and of the
    database, the handler returns a status and never raises.  When the
    socket was not in the list before the call, it is not in the list once
    the handler has left the [Active] state: after a failed [accept], a
    failed [receive_text], a send to it that raised, or any other way out
    of the loop.  A trace in which [receive_text] fails does leave that
    state, and so does a failed [accept]. *)
Theorem every_exit_path_removes_the_handle ws token ticks env w :
  ws ∉ active_connections w →
  ∃ st w',
    websocket_endpoint ws token ticks env w = (Ok st, w')
    ∧ (st ≠ Active → ws ∉ active_connections w')
    ∧ (Exists (λ tick, ∀ raw, tick.2 ≠ Text raw) ticks → st ≠ Active)
    ∧ (accept_ok env ws = false → st ≠ Active).
Proof.
  intros Hfresh.
  unfold websocket_endpoint, try_finally, connect, accept, close, bind,
    try_except, get, ask, modify, raise, ret.
  destruct (sessions w !! token) as [username|].
  2:{ eexists _, _. split; [reflexivity|].
      split; [done|]. split; intros _; discriminate. }
  destruct (accept_ok env ws) eqn:Haccept.
  2:{ rewrite disconnect_run. simpl. rewrite without_not_elem by done.
      eexists _, _. split; [reflexivity|].
      split; [done|]. split; intros _; discriminate. }
  match goal with
  | |- context [send_chat_history ws env ?w1] =>
      destruct (send_chat_history_members ws env w1) as (w2 & -> & Hw2)
  end.
  destruct (message_loop_members ws username ticks env w2)
    as (p & w3 & -> & Hocc & Hret).
  assert (occurrences ws (active_connections w3) ≤ 1)%nat as Hone.
  { specialize (Hocc ws). rewrite Hw2 in Hocc. simpl in Hocc.
    rewrite occurrences_app, occurrences_cons, decide_True in Hocc by done.
    apply occurrences_zero in Hfresh. rewrite Hfresh in Hocc.
    unfold occurrences at 2 in Hocc. simpl in Hocc. lia. }
  destruct p.
  - rewrite disconnect_run. simpl.
    eexists _, _. split; [reflexivity|].
    split; [|split; intros _; discriminate].
    intros _. simpl. apply occurrences_zero.
    rewrite occurrences_without_eq. lia.
  - eexists _, _. split; [reflexivity|].
    split; [done|]. split; [|done].
    intros Hex. by specialize (Hret Hex).
Qed.

Lemma every_exit_path_removes_the_handle_witness :
  let deaf := mkEnv (λ ws, negb (Nat.eqb ws 3)) (λ _, true) true
                    "2024-05-01T12:00:05" in
  ∃ st w',
    websocket_endpoint 3%nat "token-a"
      [(calm, Text (frame_of (lit "hi"))); (deaf, Text (Json (JDict [])));
       (calm, Text (frame_of (lit "unread")))]
      calm two_members = (Ok st, w')
    ∧ (st ≠ Active → 3%nat ∉ active_connections w')
    ∧ (Exists (λ tick, ∀ raw, tick.2 ≠ Text raw)
         [(calm, Text (frame_of (lit "hi"))); (deaf, Text (Json (JDict [])));
          (calm, Text (frame_of (lit "unread")))] → st ≠ Active)
    ∧ (accept_ok calm 3%nat = false → st ≠ Active).
Proof.
  apply (every_exit_path_removes_the_handle 3%nat "token-a"
           [(calm, Text (frame_of (lit "hi")));
            (mkEnv (λ ws, negb (Nat.eqb ws 3)) (λ _, true) true
                   "2024-05-01T12:00:05", Text (Json (JDict [])));
            (calm, Text (frame_of (lit "unread")))]
           calm two_members).
  apply (bool_decide_unpack _). vm_compute. exact I.
Defined.

End Gateway.

(** * More of the registry *)

Section RegistryAlgebra.
Import ConnectionManager.

Lemma without_app_l x l k : x ∈ l → without x (l ++ k) = without x l ++ k.
Proof.
  induction l as [|y l IH]; [by intros ?%not_elem_of_nil|].
  intros Hin. simpl. destruct (decide (x = y)) as [<-|Hne].
  - by rewrite !without_cons_eq.
  - rewrite !without_cons_ne by done. simpl. f_equal. apply IH.
    by apply elem_of_cons in Hin as [?|?].
Qed.

(** X1. A [connect] followed by a [disconnect] of the same socket leaves every
    socket as often in the list as before.  When the socket was not a
    member the world is exactly as before; when it was, its first
    occurrence has moved to the end of the list. *)
Theorem connect_then_disconnect ws env w :
  ∃ w',
    (connect ws ;;; disconnect ws) env w = (Ok tt, w')
    ∧ (∀ h, occurrences h (active_connections w')
            = occurrences h (active_connections w))
    ∧ (ws ∉ active_connections w → w' = w)
    ∧ (ws ∈ active_connections w →
       active_connections w'
       = without ws (active_connections w) ++ [ws]).
Proof.
  unfold bind. rewrite connect_run, disconnect_run. simpl.
  eexists. split; [reflexivity|]. simpl. split; [|split].
  - intros h. destruct (decide (ws = h)) as [<-|Hne].
    + rewrite occurrences_without_eq, occurrences_app, occurrences_cons.
      rewrite decide_True by done. unfold occurrences at 2. simpl. lia.
    + rewrite occurrences_without_ne, occurrences_app by done.
      rewrite occurrences_cons, decide_False by done.
      unfold occurrences at 2. simpl. lia.
  - intros Hnin. rewrite without_middle by done. rewrite app_nil_r.
    by destruct w.
  - intros Hin. by apply without_app_l.
Qed.

(** X2. Two [disconnect] calls for the same socket never raise and take away
    two occurrences at most, no other socket being touched; when the
    socket was in the list once or not at all, the second call changes
    nothing and the socket is gone after the first. *)
Theorem disconnect_twice ws env w :
  ∃ w1 w2,
    disconnect ws env w = (Ok tt, w1)
    ∧ disconnect ws env w1 = (Ok tt, w2)
    ∧ occurrences ws (active_connections w2)
      = (occurrences ws (active_connections w) - 2)%nat
    ∧ (∀ h, h ≠ ws →
            occurrences h (active_connections w2)
            = occurrences h (active_connections w))
    ∧ ((occurrences ws (active_connections w) ≤ 1)%nat →
       w2 = w1 ∧ ws ∉ active_connections w1).
Proof.
  eexists _, _. split; [apply disconnect_run|].
  split; [apply disconnect_run|]. simpl. split; [|split].
  - rewrite !occurrences_without_eq. lia.
  - intros h Hne. by rewrite !occurrences_without_ne.
  - intros Hone.
    assert (ws ∉ without ws (active_connections w)) as Hgone.
    { apply occurrences_zero. rewrite occurrences_without_eq. lia. }
    split; [|done]. rewrite (without_not_elem ws (without ws _)) by done.
    done.
Qed.

Lemma survivors_idemp env l : survivors env (survivors env l) = survivors env l.
Proof.
  unfold survivors. induction l as [|c l IH]; [done|].
  rewrite filter_cons. destruct (decide (send_ok env c = true)) as [Hc|Hc].
  - rewrite filter_cons, decide_True by done. by rewrite IH.
  - done.
Qed.

(** X3. A broadcast heals the list: a second broadcast under the same
    conditions finds every send returning and removes nobody.  The list
    after a broadcast is a sublist of the list before, so the sockets that
    stay keep their order. *)
Theorem broadcast_heals message message' env w :
  ∃ w1 w2,
    broadcast message env w = (Ok tt, w1)
    ∧ broadcast message' env w1 = (Ok tt, w2)
    ∧ active_connections w1 `sublist_of` active_connections w
    ∧ active_connections w2 = active_connections w1
    ∧ Forall (λ t, delivered t = true ∧ event t = message')
             (drop (length (wire w1)) (wire w2))
    ∧ length (drop (length (wire w1)) (wire w2))
      = length (active_connections w1).
Proof.
  eexists _, _. split; [apply broadcast_run|].
  split; [apply broadcast_run|]. simpl.
  split; [apply sublist_filter|]. split; [apply survivors_idemp|].
  rewrite drop_app_length. split.
  - unfold transmissions. apply Forall_fmap, Forall_forall. intros c Hc.
    simpl. split; [|done].
    unfold survivors in Hc. by apply list_elem_of_filter in Hc as [? _].
  - unfold transmissions. by rewrite length_fmap.
Qed.

End RegistryAlgebra.

(** * More of the message log *)

Section MessageLogMore.
Import Database.

Lemma order_by_id_desc_snoc r rows :
  Forall (λ x, row_id x < row_id r) rows →
  order_by_id_desc (rows ++ [r]) = r :: order_by_id_desc rows.
Proof.
  unfold order_by_id_desc. induction 1 as [|x rows Hx _ IH]; [done|].
  simpl. rewrite IH. simpl.
  destruct (row_id r <=? row_id x) eqn:Hle; [lia|done].
Qed.

(** X4. What [insert_message] does to the table.  The row goes to the end with
    an id above every id there, so that ids stay unique and, where they
    were growing, keep growing; rows already present are not touched.
    When the database fails the call raises and nothing has changed. *)
Theorem insert_message_appends username content timestamp env w :
  ∃ w',
    insert_message username content timestamp env w
    = (if db_ok env then Ok tt else Raise OperationalError, w')
    ∧ messages_table w'
      = messages_table w ++
        (if db_ok env
         then [mkRow (next_id (messages_table w)) username content timestamp]
         else [])
    ∧ Forall (λ r, row_id r < next_id (messages_table w)) (messages_table w)
    ∧ (ids_unique (messages_table w) → ids_unique (messages_table w'))
    ∧ (ids_ascending (messages_table w) → ids_ascending (messages_table w'))
    ∧ sessions w' = sessions w
    ∧ active_connections w' = active_connections w
    ∧ wire w' = wire w.
Proof.
  unfold insert_message. run. pose proof (next_id_above (messages_table w)).
  destruct (db_ok env); simpl.
  - eexists. split; [reflexivity|]. simpl. repeat split; try done.
    + unfold ids_unique. rewrite fmap_app. intros Huniq.
      apply NoDup_app. split; [done|]. split; [|apply NoDup_singleton].
      intros i Hi ->%list_elem_of_singleton.
      apply list_elem_of_fmap in Hi as (r & Hr & Hin).
      rewrite Forall_forall in H. specialize (H r Hin). simpl in Hr. lia.
    + intros Hasc. by apply ids_ascending_snoc.
  - exists w. rewrite app_nil_r. by repeat split.
Qed.

(** X5. A message that has been stored is the last entry of the next history,
    whatever the table held before and for every bound of at least one. *)
Theorem stored_message_ends_history username content timestamp limit env w :
  db_ok env = true →
  1 ≤ limit →
  ∃ w' history,
    insert_message username content timestamp env w = (Ok tt, w')
    ∧ get_last_messages limit env w' = (Ok history, w')
    ∧ last history = Some (mkMsg username content timestamp).
Proof.
  intros Hdb Hlimit. unfold insert_message, get_last_messages. run.
  rewrite Hdb. simpl. eexists _, _. split; [reflexivity|].
  split; [reflexivity|]. simpl.
  unfold last_messages, select_last, sql_limit.
  destruct (limit <? 0) eqn:Hneg; [lia|].
  rewrite order_by_id_desc_snoc by apply next_id_above.
  destruct (Z.to_nat limit) as [|n] eqn:Hn; [lia|].
  rewrite firstn_cons, reverse_cons, fmap_app. apply last_snoc.
Qed.

Lemma stored_message_ends_history_witness :
  ∃ w' history,
    insert_message "bob" (lit "hello") "2024-05-01T12:00:09" calm
                   (set_table sixty_rows two_members) = (Ok tt, w')
    ∧ get_last_messages 50 calm w' = (Ok history, w')
    ∧ last history = Some (mkMsg "bob" (lit "hello") "2024-05-01T12:00:09").
Proof.
  apply (stored_message_ends_history "bob" (lit "hello")
           "2024-05-01T12:00:09" 50 calm (set_table sixty_rows two_members)).
  - reflexivity.
  - lia.
Defined.

(** X6. With a negative bound [get_last_messages] leaves no row out: it
    returns the whole table ordered by id, oldest first. *)
Theorem negative_limit_selects_all limit rows :
  limit < 0 →
  last_messages limit rows = as_dict <$> chosen_rows limit rows
  ∧ chosen_rows limit rows ≡ₚ rows
  ∧ StronglySorted not_newer (chosen_rows limit rows)
  ∧ length (last_messages limit rows) = length rows.
Proof.
  intros Hneg. unfold last_messages, chosen_rows, select_last, sql_limit.
  apply Z.ltb_lt in Hneg. rewrite Hneg.
  split; [done|]. split; [|split].
  - by rewrite reverse_Permutation, order_by_id_desc_perm.
  - apply (StronglySorted_reverse (flip not_newer)).
    apply order_by_id_desc_sorted.
  - rewrite length_fmap, length_reverse.
    by rewrite (Permutation_length (order_by_id_desc_perm rows)).
Qed.

Lemma negative_limit_selects_all_witness :
  last_messages (-1) sixty_rows = as_dict <$> chosen_rows (-1) sixty_rows
  ∧ chosen_rows (-1) sixty_rows ≡ₚ sixty_rows
  ∧ StronglySorted not_newer (chosen_rows (-1) sixty_rows)
  ∧ length (last_messages (-1) sixty_rows) = length sixty_rows.
Proof. apply (negative_limit_selects_all (-1) sixty_rows). lia. Defined.

Lemma ids_unique_inj rows a b :
  ids_unique rows → a ∈ rows → b ∈ rows → row_id a = row_id b → a = b.
Proof.
  unfold ids_unique. induction rows as [|r rows IH]; [by intros _ ?%not_elem_of_nil|].
  rewrite fmap_cons. intros [Hr Huniq]%NoDup_cons Ha Hb Heq.
  apply elem_of_cons in Ha as [->|Ha]; apply elem_of_cons in Hb as [->|Hb].
  - done.
  - destruct Hr. rewrite Heq. apply list_elem_of_fmap. by exists b.
  - destruct Hr. rewrite <-Heq. apply list_elem_of_fmap. by exists a.
  - by apply IH.
Qed.

(** X7. The history depends on the rows a table holds, not on the order in
    which it stores them: two tables with the same rows, ids being
    unique, give the same history for every bound. *)
Theorem history_ignores_storage_order limit rows rows' :
  ids_unique rows →
  rows ≡ₚ rows' →
  last_messages limit rows = last_messages limit rows'.
Proof.
  intros Huniq Hperm. unfold last_messages, select_last.
  assert (order_by_id_desc rows = order_by_id_desc rows') as ->; [|done].
  apply (StronglySorted_unique_strong (flip not_newer)).
  - intros a b Ha Hb Hab Hba. unfold flip, not_newer in *.
    rewrite order_by_id_desc_perm in Ha.
    rewrite order_by_id_desc_perm, <-Hperm in Hb.
    apply (ids_unique_inj rows); [done..|lia].
  - apply order_by_id_desc_sorted.
  - apply order_by_id_desc_sorted.
  - by rewrite !order_by_id_desc_perm.
Qed.

Lemma history_ignores_storage_order_witness :
  last_messages 50 sixty_rows = last_messages 50 (reverse sixty_rows).
Proof.
  apply (history_ignores_storage_order 50 sixty_rows (reverse sixty_rows)).
  - apply (bool_decide_unpack _). vm_compute. exact I.
  - symmetry. apply reverse_Permutation.
Defined.

End MessageLogMore.

(** * More of the gateway *)

Section GatewayRuns.
Import ConnectionManager Database.

Lemma lstrip_head s c : head (lstrip s) = Some c → isspace c = false.
Proof.
  induction s as [|x s IH]; [done|]. simpl.
  destruct (isspace x) eqn:Hx; [done|]. by intros [= <-].
Qed.

Lemma lstrip_suffix s : ∃ k, s = k ++ lstrip s.
Proof.
  induction s as [|x s [k IH]]; [by exists []|]. simpl.
  destruct (isspace x); [|by exists []].
  exists (x :: k). simpl. by rewrite <-IH.
Qed.

Lemma lstrip_last s c : last (lstrip s) = Some c → last s = Some c.
Proof.
  intros Hlast. destruct (lstrip_suffix s) as [k Hk].
  rewrite Hk, last_app. by rewrite Hlast.
Qed.

(** What [strip] returns has nothing left to trim. *)
Lemma strip_trimmed s : no_surrounding_space (strip s).
Proof.
  unfold strip, rstrip. split; intros c.
  - rewrite head_reverse. intros Hc%lstrip_last.
    rewrite last_reverse in Hc. by apply lstrip_head in Hc.
  - rewrite last_reverse. apply lstrip_head.
Qed.

Lemma judge_accepted raw content :
  judge raw = Accepted content → well_formed_content content.
Proof.
  unfold judge. destruct raw as [data|]; [|done].
  destruct data; try done.
  destruct (dict_lookup (lit "content") items) as [value|]; [|done].
  destruct value; try done.
  case_bool_decide as Hempty; [done|].
  destruct (5000 <? len (strip s)) eqn:Hlong; [done|].
  intros [= <-]. split; [done|]. split; [lia|]. apply strip_trimmed.
Qed.

Lemma handled_refl ws username clocks w : handled ws username clocks w w.
Proof.
  unfold handled. repeat split; try done.
  - exists []. rewrite app_nil_r. repeat split; [done|simpl; lia].
  - exists []. rewrite app_nil_r. by repeat split.
Qed.

Lemma written_by_mono username clocks clocks' r :
  clocks ⊆ clocks' → written_by username clocks r →
  written_by username clocks' r.
Proof. intros Hsub (? & ? & ?). split; [done|]. split; [|done]. by apply Hsub. Qed.

Lemma proper_tx_mono ws username clocks clocks' t :
  clocks ⊆ clocks' → proper_tx ws username clocks t →
  proper_tx ws username clocks' t.
Proof.
  intros Hsub. unfold proper_tx. destruct (event t); try done.
  intros (? & ? & ?). split; [done|]. split; [|done]. by apply Hsub.
Qed.

Lemma handled_trans ws username clocks1 clocks2 w1 w2 w3 :
  handled ws username clocks1 w1 w2 →
  handled ws username clocks2 w2 w3 →
  handled ws username (clocks1 ++ clocks2) w1 w3.
Proof.
  intros (Hs1 & Hc1 & Ha1 & (rows1 & Hr1 & Hw1 & Hl1) & Hasc1
          & (txs1 & Ht1 & Hp1 & Hd1) & Hm1)
         (Hs2 & Hc2 & Ha2 & (rows2 & Hr2 & Hw2 & Hl2) & Hasc2
          & (txs2 & Ht2 & Hp2 & Hd2) & Hm2).
  unfold handled. split; [congruence|]. split; [congruence|].
  split; [congruence|]. split; [|split; [auto|split]].
  - exists (rows1 ++ rows2). rewrite Hr2, Hr1, app_assoc.
    split; [done|]. split.
    + apply Forall_app. split.
      * eapply Forall_impl; [exact Hw1|]. intros r.
        apply written_by_mono. set_solver.
      * eapply Forall_impl; [exact Hw2|]. intros r.
        apply written_by_mono. set_solver.
    + rewrite !length_app. lia.
  - exists (txs1 ++ txs2). rewrite Ht2, Ht1, app_assoc.
    split; [done|]. split.
    + apply Forall_app. split.
      * eapply Forall_impl; [exact Hp1|]. intros t.
        apply proper_tx_mono. set_solver.
      * eapply Forall_impl; [exact Hp2|]. intros t.
        apply proper_tx_mono. set_solver.
    + intros h Hin Hout.
      destruct (decide (h ∈ active_connections w2)) as [Hmid|Hmid].
      * destruct (Hd2 h Hmid Hout) as [e He]. exists e.
        apply elem_of_app. by right.
      * destruct (Hd1 h Hin Hmid) as [e He]. exists e.
        apply elem_of_app. by left.
  - intros h. specialize (Hm1 h). specialize (Hm2 h). lia.
Qed.

Lemma told_handled ws username clocks detail ok w :
  handled ws username clocks w (log_tx (Tx ws (Error detail) ok) w).
Proof.
  unfold handled. simpl. repeat split; try done.
  - exists []. rewrite app_nil_r. repeat split; [done|simpl; lia].
  - eexists. split; [done|]. split; [|done].
    by apply Forall_singleton.
Qed.

(** One turn of the loop. *)
Lemma iteration_handled ws username r env w :
  ∃ c w',
    iteration ws username r env w = (Ok c, w')
    ∧ handled ws username [utcnow env] w w'.
Proof.
  destruct r as [raw| |].
  2,3: eexists _, _; split; [reflexivity | apply handled_refl].
  rewrite iteration_text.
  assert (∀ d1 d2 ok1 ok2,
            handled ws username [utcnow env] w
              (log_tx (Tx ws (Error d2) ok2)
                      (log_tx (Tx ws (Error d1) ok1) w))) as Htwice.
  { intros. eapply (handled_trans _ _ [] [utcnow env]); apply told_handled. }
  destruct (judge raw) as [| | |content] eqn:Hj.
  1-3: destruct (send_ok env ws);
    (eexists _, _; split; [reflexivity|]);
    first [apply told_handled | apply Htwice].
  apply judge_accepted in Hj.
  destruct (db_ok env).
  2:{ destruct (send_ok env ws);
        (eexists _, _; split; [reflexivity|]); apply told_handled. }
  eexists _, _. split; [reflexivity|].
  unfold handled, relayed. simpl. repeat split; try done.
  - eexists. split; [done|]. split; [|simpl; lia].
    apply Forall_singleton. split; [done|]. split; [|done].
    simpl. apply list_elem_of_singleton. done.
  - intros Hasc. apply ids_ascending_snoc; [done|]. apply next_id_above.
  - eexists. split; [done|]. split.
    + unfold transmissions. apply Forall_fmap, Forall_forall.
      intros c _. unfold proper_tx. simpl. split; [done|]. split; [|done].
      apply list_elem_of_singleton. done.
    + intros h Hin Hout. exists (Message username content (utcnow env)).
      unfold transmissions. apply list_elem_of_fmap. exists h.
      split; [|done]. f_equal.
      destruct (send_ok env h) eqn:Hh; [|done].
      destruct Hout. unfold survivors. by apply list_elem_of_filter.
  - intros h. apply occurrences_survivors.
Qed.

(** The loop over a trace. *)
Lemma message_loop_handled ws username ticks env0 w :
  ∃ p w',
    message_loop ws username ticks env0 w = (Ok p, w')
    ∧ handled ws username (clocks_of ticks) w w'.
Proof.
  revert w. induction ticks as [|[env r] ticks IH]; intros w.
  - eexists _, _. split; [reflexivity|]. apply handled_refl.
  - rewrite message_loop_cons.
    destruct (iteration_handled ws username r env w) as (c & w1 & -> & H1).
    destruct c.
    + destruct (IH w1) as (p & w2 & -> & H2).
      eexists _, _. split; [reflexivity|].
      apply (handled_trans _ _ [utcnow env] (clocks_of ticks) _ _ _ H1 H2).
    + eexists _, _. split; [reflexivity|].
      pose proof (handled_trans _ _ [utcnow env] (clocks_of ticks) _ _ _ H1
                    (handled_refl ws username (clocks_of ticks) w1)) as H.
      exact H.
Qed.

Lemma elem_of_without_ne h ws l : h ≠ ws → h ∈ without ws l ↔ h ∈ l.
Proof.
  intros Hne.
  destruct (decide (h ∈ without ws l)) as [Hin|Hnin];
    destruct (decide (h ∈ l)) as [Hin'|Hnin']; try done.
  - apply occurrences_zero in Hnin'.
    rewrite <-(occurrences_without_ne ws h l) in Hnin' by done.
    by apply occurrences_zero in Hnin'.
  - apply occurrences_zero in Hnin.
    rewrite occurrences_without_ne in Hnin by done.
    by apply occurrences_zero in Hnin.
Qed.

Lemma send_chat_history_frame ws env w :
  ∃ w' txs,
    send_chat_history ws env w = (Ok tt, w')
    ∧ w' = set_wire (wire w ++ txs) w
    ∧ Forall (λ t, dest t = ws ∧ ∃ history, event t = History history) txs.
Proof.
  unfold send_chat_history, get_last_messages. run.
  destruct (db_ok env); simpl.
  - destruct (send_ok env ws); simpl;
      (eexists _, [_]; split; [reflexivity|]; split; [done|];
       apply Forall_singleton; eauto).
  - exists w, []. split; [done|]. split; [|done].
    rewrite app_nil_r. by destruct w.
Qed.

(** A whole run of the handler for a token of [username]. *)
Lemma endpoint_handled ws token ticks env w username :
  sessions w !! token = Some username →
  ∃ st w',
    websocket_endpoint ws token ticks env w = (Ok st, w')
    ∧ st ≠ Rejected
    ∧ sessions w' = sessions w
    ∧ closed w' = closed w
    ∧ (∃ rows,
          messages_table w' = messages_table w ++ rows
          ∧ Forall (written_by username (clocks_of ticks)) rows
          ∧ (length rows ≤ length ticks)%nat)
    ∧ (ids_ascending (messages_table w) → ids_ascending (messages_table w'))
    ∧ (∃ txs,
          wire w' = wire w ++ txs
          ∧ Forall (proper_tx ws username (clocks_of ticks)) txs
          ∧ ∀ h, h ≠ ws → h ∈ active_connections w →
                 h ∉ active_connections w' → ∃ e, Tx h e false ∈ txs)
    ∧ (∀ h, h ≠ ws →
            (occurrences h (active_connections w')
             ≤ occurrences h (active_connections w))%nat).
Proof.
  intros Htoken.
  unfold websocket_endpoint, try_finally, connect, accept, close, bind,
    try_except, get, ask, modify, raise, ret.
  rewrite Htoken.
  destruct (accept_ok env ws) eqn:Haccept.
  2:{ rewrite disconnect_run. simpl.
      eexists _, _. split; [reflexivity|]. simpl.
      split; [done|]. split; [done|]. split; [done|]. split.
      { exists []. rewrite app_nil_r. repeat split; [done|simpl; lia]. }
      split; [done|]. split.
      { exists []. rewrite app_nil_r. split; [done|]. split; [done|].
        intros h Hne Hin Hout. destruct Hout. by apply elem_of_without_ne. }
      intros h Hne. by rewrite occurrences_without_ne. }
  match goal with
  | |- context [send_chat_history ws env ?w1] =>
      destruct (send_chat_history_frame ws env w1) as (w2 & htxs & -> & -> & Hh)
  end.
  match goal with
  | |- context [message_loop ws username ticks env ?w2] =>
      destruct (message_loop_handled ws username ticks env w2)
        as (p & w3 & -> & Hs & Hc & Ha & (rows & Hrows & Hwritten & Hlen)
            & Hasc & (txs & Hwire & Hproper & Hdropped) & Hmembers)
  end.
  simpl in *.
  assert (∀ h, h ≠ ws →
            (occurrences h (active_connections w3)
             ≤ occurrences h (active_connections w))%nat) as Hothers.
  { intros h Hne. specialize (Hmembers h).
    rewrite occurrences_app, occurrences_cons, decide_False in Hmembers
      by done.
    unfold occurrences at 3 in Hmembers. simpl in Hmembers. lia. }
  assert (Forall (proper_tx ws username (clocks_of ticks)) (htxs ++ txs))
    as Hall.
  { apply Forall_app. split; [|done].
    eapply Forall_impl; [exact Hh|]. intros t [Hd [history He]].
    unfold proper_tx. by rewrite He. }
  assert (length rows ≤ length ticks)%nat as Hlen'.
  { unfold clocks_of in Hlen. by rewrite length_fmap in Hlen. }
  destruct p.
  - rewrite disconnect_run. simpl.
    eexists _, _. split; [reflexivity|]. simpl.
    split; [done|]. split; [done|]. split; [done|]. split; [eauto|].
    split; [done|]. split.
    + exists (htxs ++ txs). rewrite Hwire, app_assoc. split; [done|].
      split; [done|]. intros h Hne Hin Hout.
      destruct (Hdropped h) as [e He].
      * apply elem_of_app. by left.
      * intros Hin3. destruct Hout. by apply elem_of_without_ne.
      * exists e. apply elem_of_app. by right.
    + intros h Hne. rewrite occurrences_without_ne by done. by apply Hothers.
  - eexists _, _. split; [reflexivity|]. simpl.
    split; [done|]. split; [done|]. split; [done|]. split; [eauto|].
    split; [done|]. split; [|done].
    exists (htxs ++ txs). rewrite Hwire, app_assoc. split; [done|].
    split; [done|]. intros h Hne Hin Hout.
    destruct (Hdropped h) as [e He]; [apply elem_of_app; by left | done |].
    exists e. apply elem_of_app. by right.
Qed.

(** X8. Whatever a connection receives and whatever fails, its handler leaves
    the sessions alone and only adds rows to the table, one per turn at
    most.  Each row carries the user of the token, the clock of one of the
    turns and a content that is trimmed, not empty and of 5000 characters
    at most; ids that were growing keep growing. *)
Theorem handler_only_appends_rows_of_its_user ws token ticks env w username :
  sessions w !! token = Some username →
  ∃ st w' rows,
    websocket_endpoint ws token ticks env w = (Ok st, w')
    ∧ sessions w' = sessions w
    ∧ messages_table w' = messages_table w ++ rows
    ∧ Forall (written_by username (clocks_of ticks)) rows
    ∧ (length rows ≤ length ticks)%nat
    ∧ (ids_ascending (messages_table w) → ids_ascending (messages_table w')).
Proof.
  intros Htoken.
  destruct (endpoint_handled ws token ticks env w username Htoken)
    as (st & w' & Hrun & _ & Hs & _ & (rows & Hrows & Hw & Hl) & Hasc & _).
  by exists st, w', rows.
Qed.

Lemma handler_only_appends_rows_of_its_user_witness :
  ∃ st w' rows,
    websocket_endpoint 3%nat "token-a" sample_ticks calm two_members
    = (Ok st, w')
    ∧ sessions w' = sessions two_members
    ∧ messages_table w' = messages_table two_members ++ rows
    ∧ Forall (written_by "alice" (clocks_of sample_ticks)) rows
    ∧ (length rows ≤ length sample_ticks)%nat
    ∧ (ids_ascending (messages_table two_members) →
       ids_ascending (messages_table w')).
Proof.
  apply (handler_only_appends_rows_of_its_user 3%nat "token-a" sample_ticks
           calm two_members "alice").
  vm_compute. reflexivity.
Defined.

(** X9. Everything a handler sends during a run is either a message in the
    name of the user of its token, with a content that passed the
    validation and the clock of one of its turns, or a history or error
    event addressed to its own socket: no other socket ever gets a history
    or an error from it, and the frame cannot choose the sender's name. *)
Theorem handler_sends_errors_to_its_socket_only
    ws token ticks env w username :
  sessions w !! token = Some username →
  ∃ st w' txs,
    websocket_endpoint ws token ticks env w = (Ok st, w')
    ∧ wire w' = wire w ++ txs
    ∧ Forall (proper_tx ws username (clocks_of ticks)) txs.
Proof.
  intros Htoken.
  destruct (endpoint_handled ws token ticks env w username Htoken)
    as (st & w' & Hrun & _ & _ & _ & _ & _ & (txs & Hwire & Hp & _) & _).
  by exists st, w', txs.
Qed.

Lemma handler_sends_errors_to_its_socket_only_witness :
  ∃ st w' txs,
    websocket_endpoint 3%nat "token-a" sample_ticks calm two_members
    = (Ok st, w')
    ∧ wire w' = wire two_members ++ txs
    ∧ Forall (proper_tx 3%nat "alice" (clocks_of sample_ticks)) txs.
Proof.
  apply (handler_sends_errors_to_its_socket_only 3%nat "token-a" sample_ticks
           calm two_members "alice").
  vm_compute. reflexivity.
Defined.

(** X10. A handler never adds another socket to the list, and it drops another
    socket only after a send to that socket has raised. *)
Theorem handler_drops_only_failed_peers ws token ticks env w username :
  sessions w !! token = Some username →
  ∃ st w',
    websocket_endpoint ws token ticks env w = (Ok st, w')
    ∧ (∀ h, h ≠ ws →
            (occurrences h (active_connections w')
             ≤ occurrences h (active_connections w))%nat)
    ∧ (∀ h, h ≠ ws → h ∈ active_connections w →
            h ∉ active_connections w' →
            ∃ e, Tx h e false ∈ drop (length (wire w)) (wire w')).
Proof.
  intros Htoken.
  destruct (endpoint_handled ws token ticks env w username Htoken)
    as (st & w' & Hrun & _ & _ & _ & _ & _ & (txs & Hwire & _ & Hd) & Hm).
  exists st, w'. split; [done|]. split; [done|].
  rewrite Hwire, drop_app_length. exact Hd.
Qed.

Lemma handler_drops_only_failed_peers_witness :
  ∃ st w',
    websocket_endpoint 3%nat "token-a" sample_ticks deaf_to_three two_members
    = (Ok st, w')
    ∧ (∀ h, h ≠ 3%nat →
            (occurrences h (active_connections w')
             ≤ occurrences h (active_connections two_members))%nat)
    ∧ (∀ h, h ≠ 3%nat → h ∈ active_connections two_members →
            h ∉ active_connections w' →
            ∃ e, Tx h e false ∈ drop (length (wire two_members)) (wire w')).
Proof.
  apply (handler_drops_only_failed_peers 3%nat "token-a" sample_ticks
           deaf_to_three two_members "alice").
  vm_compute. reflexivity.
Defined.

Lemma admission_run ws token env w username :
  sessions w !! token = Some username →
  accept_ok env ws = true →
  websocket_endpoint ws token [] env w
  = (Ok Active,
     mkWorld (sessions w) (active_connections w ++ [ws]) (messages_table w)
       (wire w ++
          (if db_ok env
           then [Tx ws (History (last_messages 50 (messages_table w)))
                    (send_ok env ws)]
           else []))
       (accepted w ++ [ws]) (closed w)).
Proof.
  intros Htoken Haccept.
  unfold websocket_endpoint, try_finally, connect, accept, close,
    send_chat_history, get_last_messages.
  run. unfold ret. rewrite Htoken, Haccept. simpl.
  destruct (db_ok env); simpl.
  - by destruct (send_ok env ws).
  - by rewrite app_nil_r.
Qed.

(** X11. The history is best effort.  With a known token and an [accept] that
    returns, the connection is admitted and waits for its first frame
    whether or not the table can be read and whether or not the history
    can be sent: the socket is the last member of the list, no row is
    written and at most one event, a history for that socket, has been
    sent. *)
Theorem admission_survives_history_failure ws token env w username :
  sessions w !! token = Some username →
  accept_ok env ws = true →
  ∃ w',
    websocket_endpoint ws token [] env w = (Ok Active, w')
    ∧ active_connections w' = active_connections w ++ [ws]
    ∧ accepted w' = accepted w ++ [ws]
    ∧ messages_table w' = messages_table w
    ∧ wire w' = wire w ++
        (if db_ok env
         then [Tx ws (History (last_messages 50 (messages_table w)))
                  (send_ok env ws)]
         else []).
Proof.
  intros Htoken Haccept.
  rewrite (admission_run ws token env w username) by done.
  by eexists.
Qed.

Lemma admission_survives_history_failure_witness :
  let env := mkEnv (λ _, false) (λ _, true) false "2024-05-01T12:00:00" in
  ∃ w',
    websocket_endpoint 3%nat "token-a" [] env two_members = (Ok Active, w')
    ∧ active_connections w' = active_connections two_members ++ [3%nat]
    ∧ accepted w' = accepted two_members ++ [3%nat]
    ∧ messages_table w' = messages_table two_members
    ∧ wire w' = wire two_members ++
        (if db_ok env
         then [Tx 3%nat
                  (History (last_messages 50 (messages_table two_members)))
                  (send_ok env 3%nat)]
         else []).
Proof.
  apply (admission_survives_history_failure 3%nat "token-a"
           (mkEnv (λ _, false) (λ _, true) false "2024-05-01T12:00:00")
           two_members "alice").
  - vm_compute. reflexivity.
  - reflexivity.
Defined.

(** X12. What a frame that passes the validation leads to when the row can be
    written: the row and the broadcast carry the same user, content and
    clock; every occurrence of a member is sent the message once, in the
    order of the list, the sender included when it is a member; the row
    is written even when every send fails. *)
Theorem relayed_message_is_the_stored_one ws username items s env w :
  dict_lookup (lit "content") items = Some (JStr s) →
  strip s ≠ [] →
  len (strip s) ≤ 5000 →
  db_ok env = true →
  ∃ w' row,
    iteration ws username (Text (Json (JDict items))) env w = (Ok Continue, w')
    ∧ messages_table w' = messages_table w ++ [row]
    ∧ as_dict row = mkMsg username (strip s) (utcnow env)
    ∧ wire w' = wire w ++
        transmissions env
          (Message (row_username row) (row_content row) (row_timestamp row))
          (active_connections w)
    ∧ (∀ h, h ∈ active_connections w →
            Tx h (Message username (strip s) (utcnow env)) (send_ok env h)
            ∈ drop (length (wire w)) (wire w'))
    ∧ (ws ∈ active_connections w → send_ok env ws = true →
       ws ∈ active_connections w').
Proof.
  intros Hcontent Hfilled Hshort Hdb.
  rewrite (accepted_frame_is_relayed ws username items s) by done.
  eexists _, _. split; [reflexivity|]. simpl.
  split; [done|]. split; [done|]. split; [done|]. split.
  - intros h Hin. rewrite drop_app_length. unfold transmissions.
    apply list_elem_of_fmap. by exists h.
  - intros Hin Hok. unfold survivors. by apply list_elem_of_filter.
Qed.

Lemma relayed_message_is_the_stored_one_witness :
  ∃ w' row,
    iteration 1%nat "alice"
      (Text (Json (JDict [(lit "content", JStr (lit " hello "))])))
      deaf_to_three two_members = (Ok Continue, w')
    ∧ messages_table w' = messages_table two_members ++ [row]
    ∧ as_dict row
      = mkMsg "alice" (strip (lit " hello ")) (utcnow deaf_to_three)
    ∧ wire w' = wire two_members ++
        transmissions deaf_to_three
          (Message (row_username row) (row_content row) (row_timestamp row))
          (active_connections two_members)
    ∧ (∀ h, h ∈ active_connections two_members →
            Tx h (Message "alice" (strip (lit " hello "))
                          (utcnow deaf_to_three))
               (send_ok deaf_to_three h)
            ∈ drop (length (wire two_members)) (wire w'))
    ∧ (1%nat ∈ active_connections two_members →
       send_ok deaf_to_three 1%nat = true →
       1%nat ∈ active_connections w').
Proof.
  apply (relayed_message_is_the_stored_one 1%nat "alice"
           [(lit "content", JStr (lit " hello "))] (lit " hello ")
           deaf_to_three two_members).
  - reflexivity.
  - vm_compute. discriminate.
  - vm_compute. discriminate.
  - reflexivity.
Defined.

Lemma occurrences_survivors_alive h env l :
  send_ok env h = true →
  occurrences h (survivors env l) = occurrences h l.
Proof.
  intros Hh. unfold survivors. induction l as [|c l IH]; [done|].
  rewrite filter_cons, !occurrences_cons.
  destruct (decide (send_ok env c = true)) as [Hc|Hc].
  - rewrite occurrences_cons. by rewrite IH.
  - rewrite decide_False; [done|]. intros ->. done.
Qed.

(** X13. Frames are relayed in the order of their arrival.  When every frame
    of a trace passes the validation and is stored, the rows added to the
    table are those frames in order, each with the clock of its turn; a
    member that is once in the list and can be written to throughout is
    sent exactly these messages, in the same order and nothing else, and
    is still a member at the end. *)
Theorem frames_are_relayed_in_order ws username frames env0 w h :
  occurrences h (active_connections w) = 1%nat →
  Forall (taken_and_heard h) frames →
  ∃ w' rows txs,
    message_loop ws username (frames_ticks frames) env0 w = (Ok Receiving, w')
    ∧ messages_table w' = messages_table w ++ rows
    ∧ as_dict <$> rows
      = (λ f, mkMsg username (strip f.2) (utcnow f.1)) <$> frames
    ∧ wire w' = wire w ++ txs
    ∧ filter (λ t, dest t = h) txs
      = (λ f, Tx h (Message username (strip f.2) (utcnow f.1)) true)
          <$> frames
    ∧ occurrences h (active_connections w') = 1%nat.
Proof.
  intros Hone Hframes. revert w Hone.
  induction Hframes as [|[env s] frames (Hdb & Hh & Hfilled & Hshort) _ IH];
    intros w Hone.
  - exists w, [], []. rewrite !app_nil_r. by repeat split.
  - unfold frames_ticks. rewrite fmap_cons. fold (frames_ticks frames).
    rewrite message_loop_cons. simpl in *. unfold frame_of.
    rewrite (accepted_frame_is_relayed ws username _ s) by done.
    destruct (IH (relayed env username (strip s) w))
      as (w' & rows & txs & -> & Hrows & Hdicts & Hwire & Hheard & Hstill).
    { simpl. by rewrite occurrences_survivors_alive. }
    simpl in Hrows, Hwire.
    exists w', (mkRow (next_id (messages_table w)) username (strip s)
                      (utcnow env) :: rows),
      (transmissions env (Message username (strip s) (utcnow env))
                     (active_connections w) ++ txs).
    split; [done|]. split; [by rewrite Hrows, <-app_assoc|].
    split; [by rewrite fmap_cons, Hdicts|].
    split; [by rewrite Hwire, <-app_assoc|]. split; [|done].
    rewrite filter_app, transmissions_to, Hone, Hh, Hheard. done.
Qed.

Lemma frames_are_relayed_in_order_witness :
  let frames := [(calm, lit "one"); (deaf_to_three, lit " two ")] in
  ∃ w' rows txs,
    message_loop 1%nat "alice" (frames_ticks frames) calm two_members
    = (Ok Receiving, w')
    ∧ messages_table w' = messages_table two_members ++ rows
    ∧ as_dict <$> rows
      = (λ f, mkMsg "alice" (strip f.2) (utcnow f.1)) <$> frames
    ∧ wire w' = wire two_members ++ txs
    ∧ filter (λ t, dest t = 2%nat) txs
      = (λ f, Tx 2%nat (Message "alice" (strip f.2) (utcnow f.1)) true)
          <$> frames
    ∧ occurrences 2%nat (active_connections w') = 1%nat.
Proof.
  apply (frames_are_relayed_in_order 1%nat "alice"
           [(calm, lit "one"); (deaf_to_three, lit " two ")] calm two_members
           2%nat).
  - reflexivity.
  - repeat constructor; vm_compute; discriminate.
Defined.

Lemma last_messages_snoc limit rows r :
  Forall (λ x, row_id x < row_id r) rows →
  1 ≤ limit →
  last (last_messages limit (rows ++ [r])) = Some (as_dict r).
Proof.
  intros Hr Hlimit. unfold last_messages, select_last, sql_limit.
  destruct (limit <? 0) eqn:Hneg; [lia|].
  rewrite order_by_id_desc_snoc by done.
  destruct (Z.to_nat limit) as [|n] eqn:Hn; [lia|].
  rewrite firstn_cons, reverse_cons, fmap_app. apply last_snoc.
Qed.

(** X14. A message relayed on one connection closes the history of the next
    connection to be admitted: the history that connection is sent ends
    with the user, the trimmed content and the clock of that message. *)
Theorem relayed_message_closes_next_history
    ws username items s env w ws' token' env' :
  dict_lookup (lit "content") items = Some (JStr s) →
  strip s ≠ [] →
  len (strip s) ≤ 5000 →
  db_ok env = true →
  is_Some (sessions w !! token') →
  accept_ok env' ws' = true →
  db_ok env' = true →
  ∃ w1 w2 history,
    iteration ws username (Text (Json (JDict items))) env w = (Ok Continue, w1)
    ∧ websocket_endpoint ws' token' [] env' w1 = (Ok Active, w2)
    ∧ wire w2 = wire w1 ++ [Tx ws' (History history) (send_ok env' ws')]
    ∧ last history = Some (mkMsg username (strip s) (utcnow env)).
Proof.
  intros Hcontent Hfilled Hshort Hdb [username' Htoken] Haccept Hdb'.
  rewrite (accepted_frame_is_relayed ws username items s) by done.
  eexists _, _, _. split; [reflexivity|].
  rewrite (admission_run ws' token' env' _ username') by done.
  split; [reflexivity|]. simpl. rewrite Hdb'. split; [done|].
  apply last_messages_snoc; [apply next_id_above | lia].
Qed.

Lemma relayed_message_closes_next_history_witness :
  ∃ w1 w2 history,
    iteration 1%nat "alice"
      (Text (Json (JDict [(lit "content", JStr (lit " hello "))])))
      calm two_sessions = (Ok Continue, w1)
    ∧ websocket_endpoint 3%nat "token-b" [] calm w1 = (Ok Active, w2)
    ∧ wire w2 = wire w1 ++ [Tx 3%nat (History history) (send_ok calm 3%nat)]
    ∧ last history = Some (mkMsg "alice" (strip (lit " hello ")) (utcnow calm)).
Proof.
  apply (relayed_message_closes_next_history 1%nat "alice"
           [(lit "content", JStr (lit " hello "))] (lit " hello ")
           calm two_sessions 3%nat "token-b" calm).
  - reflexivity.
  - vm_compute. discriminate.
  - vm_compute. discriminate.
  - reflexivity.
  - vm_compute. eexists. reflexivity.
  - reflexivity.
  - reflexivity.
Defined.

End GatewayRuns.

(** * The HTTP handlers *)

Section Accounts.
Import Http.

Ltac hrun :=
  unfold hbind, hret, hraise, htry_except, htry_finally, hask, hget,
    hmodify in *;
  simpl in *.

(** [register], case by case. *)
Lemma register_run user env s :
  register user env s =
  if connect_ok env then
    if strlen (user_username user) <? 3
    then (Failed (HTTPException 400 "Username must be at least 3 characters"),
          s)
    else if strlen (user_password user) <? 6
    then (Failed (HTTPException 400 "Password must be at least 6 characters"),
          s)
    else if execute_ok env
    then if bool_decide (user_username user ∈ user_names s)
         then (Failed (HTTPException 400 "User already exists"), s)
         else (Replied (JDict [(lit "message",
                                JStr (lit "User registered successfully"))]),
               mkSite (world s)
                 (users_table s ++
                    [mkUserRow (next_user_id (users_table s))
                       (user_username user)
                       (hash_password env (user_password user))]))
    else (Failed (HTTPException 400 "User already exists"), s)
  else (Failed UnboundLocalError, s).
Proof.
  unfold register, get_connection, conn_close, insert_user, user_names. hrun.
  destruct (connect_ok env); simpl; [|done].
  destruct (strlen (user_username user) <? 3); simpl; [done|].
  destruct (strlen (user_password user) <? 6); simpl; [done|].
  destruct (execute_ok env); simpl; [|done].
  by case_bool_decide.
Qed.

(** [login], case by case. *)
Lemma login_run user env s :
  login user env s =
  if connect_ok env && execute_ok env then
    match list_find (λ u, user_name u = user_username user) (users_table s)
    with
    | Some (_, u) =>
        if verify_password env (user_password user) (user_password_hash u)
        then (Replied (JDict [(lit "token", JStr (lit (uuid4 env)))]),
              set_session (uuid4 env) (user_username user) s)
        else (Failed (HTTPException 401 "Invalid credentials"), s)
    | None => (Failed (HTTPException 401 "Invalid credentials"), s)
    end
  else (Failed (HTTPException 500 "Internal server error"), s).
Proof.
  unfold login, get_connection, select_password_hash. hrun.
  destruct (connect_ok env); simpl; [|done].
  destruct (execute_ok env); simpl; [|done].
  destruct (list_find _ (users_table s)) as [[i u]|]; simpl; [|done].
  by destruct (verify_password env (user_password user)
                 (user_password_hash u)).
Qed.

(** X15. A name of fewer than 3 characters or a password of fewer than 6 is
    refused with status 400 and leaves the site as it is; the name is
    looked at first.  The connection is opened before the lengths are
    looked at, so this is the answer only when it could be opened. *)
Theorem register_refuses_short_credentials user env s :
  connect_ok env = true →
  strlen (user_username user) < 3 ∨ strlen (user_password user) < 6 →
  register user env s
  = (Failed (HTTPException 400
               (if strlen (user_username user) <? 3
                then "Username must be at least 3 characters"
                else "Password must be at least 6 characters")),
     s).
Proof.
  intros Hconn Hshort. rewrite register_run, Hconn.
  destruct (strlen (user_username user) <? 3) eqn:Hname; [done|].
  destruct Hshort as [?|Hpw]; [lia|].
  apply Z.ltb_lt in Hpw. by rewrite Hpw.
Qed.

Lemma register_refuses_short_credentials_witness :
  register (mkUser "al" "pw") sample_http one_account
  = (Failed (HTTPException 400
               (if strlen (user_username (mkUser "al" "pw")) <? 3
                then "Username must be at least 3 characters"
                else "Password must be at least 6 characters")),
     one_account).
Proof.
  apply (register_refuses_short_credentials (mkUser "al" "pw") sample_http
           one_account).
  - reflexivity.
  - left. vm_compute. reflexivity.
Defined.

(** X16. With credentials long enough and a database that works, [register]
    answers by whether the name is taken.  A free name gets one new
    account at the end of the table, holding the hash of the password and
    an id above every other; a taken name gets status 400 and changes
    nothing.  Either way names that were all different stay so, and the
    sessions, connections and messages are not touched. *)
Theorem register_adds_one_account user env s :
  connect_ok env = true →
  execute_ok env = true →
  3 ≤ strlen (user_username user) →
  6 ≤ strlen (user_password user) →
  ∃ s',
    register user env s
    = (if bool_decide (user_username user ∈ user_names s)
       then Failed (HTTPException 400 "User already exists")
       else Replied (JDict [(lit "message",
                             JStr (lit "User registered successfully"))]),
       s')
    ∧ users_table s'
      = users_table s ++
        (if bool_decide (user_username user ∈ user_names s)
         then []
         else [mkUserRow (next_user_id (users_table s)) (user_username user)
                         (hash_password env (user_password user))])
    ∧ Forall (λ u, user_id u < next_user_id (users_table s)) (users_table s)
    ∧ (NoDup (user_names s) → NoDup (user_names s'))
    ∧ world s' = world s.
Proof.
  intros Hconn Hexec Hname Hpw. rewrite register_run, Hconn, Hexec.
  apply Z.ltb_ge in Hname, Hpw. rewrite Hname, Hpw.
  assert (Forall (λ u, user_id u < next_user_id (users_table s))
                 (users_table s)) as Hids.
  { unfold next_user_id. induction (users_table s) as [|u us IH]; [done|].
    simpl. constructor; [lia|].
    eapply Forall_impl; [exact IH|]. simpl. intros; lia. }
  case_bool_decide as Htaken.
  - exists s. rewrite app_nil_r. by repeat split.
  - eexists. split; [reflexivity|]. simpl. repeat split; try done.
    unfold user_names. simpl. rewrite fmap_app. intros Hnd.
    apply NoDup_app. split; [done|]. split; [|apply NoDup_singleton].
    by intros x Hx ->%list_elem_of_singleton.
Qed.

Lemma register_adds_one_account_witness :
  ∃ s',
    register (mkUser "bob" "builder") sample_http one_account
    = (if bool_decide (user_username (mkUser "bob" "builder")
                       ∈ user_names one_account)
       then Failed (HTTPException 400 "User already exists")
       else Replied (JDict [(lit "message",
                             JStr (lit "User registered successfully"))]),
       s')
    ∧ users_table s'
      = users_table one_account ++
        (if bool_decide (user_username (mkUser "bob" "builder")
                         ∈ user_names one_account)
         then []
         else [mkUserRow (next_user_id (users_table one_account))
                 (user_username (mkUser "bob" "builder"))
                 (hash_password sample_http
                    (user_password (mkUser "bob" "builder")))])
    ∧ Forall (λ u, user_id u < next_user_id (users_table one_account))
             (users_table one_account)
    ∧ (NoDup (user_names one_account) → NoDup (user_names s'))
    ∧ world s' = world one_account.
Proof.
  apply (register_adds_one_account (mkUser "bob" "builder") sample_http
           one_account).
  - reflexivity.
  - reflexivity.
  - vm_compute. discriminate.
  - vm_compute. discriminate.
Defined.

(** X17. When the database fails, [register] does not say so.  A statement that
    cannot be run is answered like a taken name, with status 400 and
    [User already exists]; a connection that cannot be opened leaves
    [conn] unbound, so that the [finally] clause raises and the handler
    ends with an [UnboundLocalError] whoever registers.  Nothing is
    written. *)
Theorem register_hides_database_failure user env s :
  connect_ok env && execute_ok env = false →
  (connect_ok env = true →
   3 ≤ strlen (user_username user) ∧ 6 ≤ strlen (user_password user)) →
  register user env s
  = (Failed (if connect_ok env
             then HTTPException 400 "User already exists"
             else UnboundLocalError),
     s).
Proof.
  intros Hfail Hlong. rewrite register_run.
  destruct (connect_ok env); [|done].
  destruct (Hlong eq_refl) as [Hname Hpw].
  apply Z.ltb_ge in Hname, Hpw. rewrite Hname, Hpw.
  simpl in Hfail. by rewrite Hfail.
Qed.

Lemma register_hides_database_failure_witness :
  let env := mkHttpEnv false true (String.append "hashed:") (λ _ _, false)
                       "3f2b8c1e-0000-4000-8000-000000000002" in
  register (mkUser "al" "pw") env one_account
  = (Failed (if connect_ok env
             then HTTPException 400 "User already exists"
             else UnboundLocalError),
     one_account).
Proof.
  apply (register_hides_database_failure (mkUser "al" "pw")
           (mkHttpEnv false true (String.append "hashed:") (λ _ _, false)
                      "3f2b8c1e-0000-4000-8000-000000000002") one_account).
  - reflexivity.
  - discriminate.
Defined.

(** X18. [login] answers 401 and changes nothing when no account has the name
    or when the password does not verify against the stored hash, and 500
    when the database fails: no token is handed out without a verified
    password. *)
Theorem login_needs_a_verified_password user env s :
  (∀ u, u ∈ users_table s → user_name u = user_username user →
        verify_password env (user_password user) (user_password_hash u)
        = false) →
  login user env s
  = (Failed (if connect_ok env && execute_ok env
             then HTTPException 401 "Invalid credentials"
             else HTTPException 500 "Internal server error"),
     s).
Proof.
  intros Hwrong. rewrite login_run.
  destruct (connect_ok env && execute_ok env); [|done].
  destruct (list_find _ (users_table s)) as [[i u]|] eqn:Hfind; [|done].
  apply list_find_Some in Hfind as (Hi & Hname & _).
  rewrite Hwrong; [done| |done]. by eapply list_elem_of_lookup_2.
Qed.

Lemma login_needs_a_verified_password_witness :
  login (mkUser "alice" "looking-glass") sample_http one_account
  = (Failed (if connect_ok sample_http && execute_ok sample_http
             then HTTPException 401 "Invalid credentials"
             else HTTPException 500 "Internal server error"),
     one_account).
Proof.
  apply (login_needs_a_verified_password (mkUser "alice" "looking-glass")
           sample_http one_account).
  intros u Hu Hname. apply list_elem_of_singleton in Hu as ->.
  vm_compute. reflexivity.
Defined.

Lemma list_find_snoc_fresh name users row :
  name ∉ user_name <$> users →
  user_name row = name →
  list_find (λ u, user_name u = name) (users ++ [row])
  = Some (length users, row).
Proof.
  intros Hfresh Hrow. induction users as [|u users IH]; simpl.
  - by rewrite decide_True.
  - rewrite fmap_cons in Hfresh.
    apply not_elem_of_cons in Hfresh as [Hne Hfresh].
    rewrite decide_False by done. by rewrite IH.
Qed.

(** X19. From an account to a connection.  Someone who registers under a free
    name and then logs in with the same password, the security module
    verifying a password against its own hash, is handed the token the
    server has just drawn; that token is a key of the sessions for the
    registered name, and a websocket opened with it is admitted as that
    user and becomes a member of the list. *)
Theorem registered_user_logs_in_and_connects user env env' s ws wenv :
  connect_ok env = true →
  execute_ok env = true →
  3 ≤ strlen (user_username user) →
  6 ≤ strlen (user_password user) →
  user_username user ∉ user_names s →
  connect_ok env' = true →
  execute_ok env' = true →
  verify_password env' (user_password user)
                  (hash_password env (user_password user)) = true →
  accept_ok wenv ws = true →
  ∃ s1 s2 w3,
    register user env s
    = (Replied (JDict [(lit "message",
                        JStr (lit "User registered successfully"))]), s1)
    ∧ login user env' s1
      = (Replied (JDict [(lit "token", JStr (lit (uuid4 env')))]), s2)
    ∧ sessions (world s2) !! uuid4 env' = Some (user_username user)
    ∧ websocket_endpoint ws (uuid4 env') [] wenv (world s2) = (Ok Active, w3)
    ∧ ws ∈ active_connections w3.
Proof.
  intros Hconn Hexec Hname Hpw Hfree Hconn' Hexec' Hverify Haccept.
  rewrite register_run, Hconn, Hexec.
  apply Z.ltb_ge in Hname, Hpw. rewrite Hname, Hpw.
  rewrite bool_decide_eq_false_2 by done.
  eexists _, _, _. split; [reflexivity|].
  rewrite login_run, Hconn', Hexec'. simpl.
  rewrite (list_find_snoc_fresh (user_username user)) by done. simpl.
  rewrite Hverify. split; [reflexivity|].
  assert (sessions (world (set_session (uuid4 env') (user_username user)
            (mkSite (world s)
               (users_table s ++
                  [mkUserRow (next_user_id (users_table s))
                     (user_username user)
                     (hash_password env (user_password user))]))))
          !! uuid4 env' = Some (user_username user)) as Hsession.
  { simpl. apply lookup_insert_eq. }
  split; [exact Hsession|].
  rewrite (admission_run ws (uuid4 env') wenv _ (user_username user))
    by done.
  split; [reflexivity|]. simpl. apply elem_of_app. right.
  by apply list_elem_of_singleton.
Qed.

Lemma registered_user_logs_in_and_connects_witness :
  ∃ s1 s2 w3,
    register (mkUser "bob" "builder") sample_http one_account
    = (Replied (JDict [(lit "message",
                        JStr (lit "User registered successfully"))]), s1)
    ∧ login (mkUser "bob" "builder") sample_http s1
      = (Replied (JDict [(lit "token", JStr (lit (uuid4 sample_http)))]), s2)
    ∧ sessions (world s2) !! uuid4 sample_http
      = Some (user_username (mkUser "bob" "builder"))
    ∧ websocket_endpoint 3%nat (uuid4 sample_http) [] calm (world s2)
      = (Ok Active, w3)
    ∧ 3%nat ∈ active_connections w3.
Proof.
  apply (registered_user_logs_in_and_connects (mkUser "bob" "builder")
           sample_http sample_http one_account 3%nat calm).
  - reflexivity.
  - reflexivity.
  - vm_compute. discriminate.
  - vm_compute. discriminate.
  - apply (bool_decide_unpack _). vm_compute. exact I.
  - reflexivity.
  - reflexivity.
  - vm_compute. reflexivity.
  - reflexivity.
Defined.

(** X20. No request revokes a token.  [register] leaves the sessions as they
    are; [login] changes at most the entry of the token it draws, never
    the accounts, the connections or the messages.  So a token that
    opened the websocket before a request opens it after. *)
Theorem requests_keep_sessions user env s token :
  is_Some (sessions (world s) !! token) →
  ∃ r1 s1 r2 s2,
    register user env s = (r1, s1)
    ∧ world s1 = world s
    ∧ login user env s = (r2, s2)
    ∧ users_table s2 = users_table s
    ∧ (∀ t, t ≠ uuid4 env →
            sessions (world s2) !! t = sessions (world s) !! t)
    ∧ is_Some (sessions (world s2) !! token)
    ∧ active_connections (world s2) = active_connections (world s)
    ∧ messages_table (world s2) = messages_table (world s)
    ∧ ∀ ws ticks wenv,
        (websocket_endpoint ws token ticks wenv (world s2)).1 ≠ Ok Rejected.
Proof.
  intros Hvalid.
  assert (∃ r1 s1, register user env s = (r1, s1) ∧ world s1 = world s)
    as (r1 & s1 & -> & Hw1).
  { rewrite register_run.
    destruct (connect_ok env); [|by eexists _, _].
    destruct (strlen (user_username user) <? 3); [by eexists _, _|].
    destruct (strlen (user_password user) <? 6); [by eexists _, _|].
    destruct (execute_ok env); [|by eexists _, _].
    case_bool_decide; by eexists _, _. }
  assert (∃ r2 s2, login user env s = (r2, s2)
            ∧ (s2 = s ∨ s2 = set_session (uuid4 env) (user_username user) s))
    as (r2 & s2 & -> & Hs2).
  { rewrite login_run.
    destruct (connect_ok env && execute_ok env); [|by eexists _, _; eauto].
    destruct (list_find _ (users_table s)) as [[i u]|];
      [|by eexists _, _; eauto].
    destruct (verify_password env (user_password user)
                (user_password_hash u)); eexists _, _; eauto. }
  exists r1, s1, r2, s2. split; [done|]. split; [done|]. split; [done|].
  assert (is_Some (sessions (world s2) !! token)) as Hstill.
  { destruct Hs2 as [->| ->]; [done|]. simpl.
    destruct (decide (uuid4 env = token)) as [->|Hne].
    - rewrite lookup_insert_eq. by eexists.
    - by rewrite lookup_insert_ne. }
  split; [by destruct Hs2 as [->| ->]|].
  split.
  { intros t Hne. destruct Hs2 as [->| ->]; [done|]. simpl.
    by rewrite lookup_insert_ne. }
  split; [done|].
  split; [by destruct Hs2 as [->| ->]|].
  split; [by destruct Hs2 as [->| ->]|].
  intros ws ticks wenv. destruct Hstill as [name Hname].
  destruct (endpoint_handled ws token ticks wenv (world s2) name Hname)
    as (st & w' & -> & Hst & _).
  simpl. congruence.
Qed.

Lemma requests_keep_sessions_witness :
  ∃ r1 s1 r2 s2,
    register (mkUser "alice" "wonderland") sample_http one_account = (r1, s1)
    ∧ world s1 = world one_account
    ∧ login (mkUser "alice" "wonderland") sample_http one_account = (r2, s2)
    ∧ users_table s2 = users_table one_account
    ∧ (∀ t, t ≠ uuid4 sample_http →
            sessions (world s2) !! t = sessions (world one_account) !! t)
    ∧ is_Some (sessions (world s2) !! "token-a")
    ∧ active_connections (world s2) = active_connections (world one_account)
    ∧ messages_table (world s2) = messages_table (world one_account)
    ∧ ∀ ws ticks wenv,
        (websocket_endpoint ws "token-a" ticks wenv (world s2)).1
        ≠ Ok Rejected.
Proof.
  apply (requests_keep_sessions (mkUser "alice" "wonderland") sample_http
           one_account "token-a").
  vm_compute. eexists. reflexivity.
Defined.

End Accounts.

(** * The client *)

Section ClientSide.

Lemma print_history_run b messages out :
  Client.print_history b (msg_json <$> messages) out
  = (inl tt, out ++ (shown_line <$> messages)).
Proof.
  revert out. induction messages as [|m messages IH]; intros out.
  - simpl. unfold Client.pret. by rewrite app_nil_r.
  - rewrite !fmap_cons. cbn [Client.print_history].
    unfold Client.pbind at 1.
    assert (Client.chat_line b (msg_json m) out = (inl (shown_line m), out))
      as ->.
    { destruct m as [u c t]. reflexivity. }
    unfold Client.pbind at 1, Client.print at 1.
    rewrite IH. by rewrite <-app_assoc.
Qed.

(** X21. Client and server agree on the events.  Whatever event the server
    sends, the client takes it for what it is and prints it without
    raising: a message as one line with the clock, the sender and the
    content unchanged, a history as such lines between a header and a
    footer in the order of the event, an error with its detail.  It never
    falls through to [Unknown message]. *)
Theorem client_prints_every_server_event b e out :
  Client.receive_one b (Json (to_json e)) out = (inl tt, out ++ shown e).
Proof.
  destruct e as [messages|sender text time|detail].
  - unfold Client.receive_one, to_json.
    unfold Client.pbind at 1, Client.pret at 1.
    unfold Client.pbind at 1.
    assert (Client.get_or_none
              (JDict [(lit "type", JStr (lit "history"));
                      (lit "messages", JList (msg_json <$> messages))])
              (lit "type") out
            = (inl (JStr (lit "history")), out)) as -> by reflexivity.
    assert (Client.is_type (JStr (lit "history")) "history" = true) as ->
      by reflexivity.
    unfold Client.pbind at 1, Client.print at 1.
    unfold Client.pbind at 1.
    assert (∀ o, Client.getitem
              (JDict [(lit "type", JStr (lit "history"));
                      (lit "messages", JList (msg_json <$> messages))])
              (lit "messages") o
            = (inl (JList (msg_json <$> messages)), o)) as Hget
      by (intros; reflexivity).
    rewrite Hget. unfold Client.pbind at 1, Client.iterate, Client.pret at 1.
    unfold Client.pbind at 1. rewrite print_history_run.
    unfold Client.print, shown. by rewrite <-!app_assoc.
  - reflexivity.
  - reflexivity.
Qed.

(** X22. Frames the server does not send.  An object without a [type], or with
    a type the client does not know, is printed as [Unknown message] and
    the loop goes on.  A history without [messages] raises [KeyError]
    after the header has been printed, and an error without [detail]
    raises it before anything is printed; a frame that is no object
    raises as well.  Nothing in the loop catches these. *)
Theorem client_on_other_frames b data items out :
  (data = JDict items →
   (∀ name, name ∈ ["history"; "message"; "error"] →
            Client.is_type (default JNone (dict_lookup (lit "type") items))
                           name = false) →
   Client.receive_one b (Json data) out
   = (inl tt, out ++ [lit "[Unknown message] " ++ Client.py_str b data]))
  ∧ (data = JDict items →
     dict_lookup (lit "type") items = Some (JStr (lit "history")) →
     dict_lookup (lit "messages") items = None →
     Client.receive_one b (Json data) out
     = (inr Client.KeyError, out ++ [10%N :: lit "--- Chat History ---"]))
  ∧ (data = JDict items →
     dict_lookup (lit "type") items = Some (JStr (lit "error")) →
     dict_lookup (lit "detail") items = None →
     Client.receive_one b (Json data) out = (inr Client.KeyError, out))
  ∧ ((∀ other, data ≠ JDict other) →
     Client.receive_one b (Json data) out = (inr Client.AttributeError, out))
  ∧ Client.receive_one b NotJson out = (inr Client.JSONDecodeError, out).
Proof.
  split; [|split; [|split; [|split]]].
  - intros -> Hother.
    pose proof (Hother "history" ltac:(set_solver)) as H1.
    pose proof (Hother "message" ltac:(set_solver)) as H2.
    pose proof (Hother "error" ltac:(set_solver)) as H3.
    unfold Client.receive_one.
    unfold Client.pbind at 1, Client.pret at 1.
    unfold Client.pbind at 1, Client.get_or_none, Client.pret at 1.
    by rewrite H1, H2, H3.
  - intros -> Htype Hmessages.
    unfold Client.receive_one, Client.pbind, Client.pret, Client.get_or_none,
      Client.getitem, Client.print, Client.praise.
    rewrite Htype, Hmessages. reflexivity.
  - intros -> Htype Hdetail.
    unfold Client.receive_one, Client.pbind, Client.pret, Client.get_or_none,
      Client.getitem, Client.print, Client.praise.
    rewrite Htype, Hdetail. reflexivity.
  - intros Hno. destruct data; try reflexivity. by destruct (Hno items0).
  - reflexivity.
Qed.

(** X23. What the client sends is never ill-formed for the server.  Whatever
    line the user types, the frame [send_messages] builds from it is
    either relayed or answered with [Message cannot be empty], [Message
    too long] or [Failed to save message]; [Invalid message format] is
    never the answer, and the server keeps the connection, its socket
    taking the answer. *)
Theorem client_payload_is_never_ill_formed text ws username env w :
  send_ok env ws = true →
  ∃ w',
    iteration ws username (Text (Json (Client.payload text))) env w
    = (Ok Continue, w')
    ∧ Forall (λ t, event t ≠ Error "Invalid message format")
             (drop (length (wire w)) (wire w'))
    ∧ (strip text ≠ [] → len (strip text) ≤ 5000 → db_ok env = true →
       w' = relayed env username (strip text) w).
Proof.
  intros Hsend. rewrite iteration_text.
  assert (judge (Json (Client.payload text))
          = if bool_decide (strip text = []) then Empty
            else if 5000 <? len (strip text) then TooLong
            else Accepted (strip text)) as -> by reflexivity.
  case_bool_decide as Hempty.
  { rewrite Hsend. eexists. split; [reflexivity|]. simpl.
    rewrite drop_app_length. split; [|done].
    by apply Forall_singleton. }
  destruct (5000 <? len (strip text)) eqn:Hlong.
  { rewrite Hsend. eexists. split; [reflexivity|]. simpl.
    rewrite drop_app_length. split; [|lia].
    by apply Forall_singleton. }
  destruct (db_ok env).
  - eexists. split; [reflexivity|]. simpl. rewrite drop_app_length.
    split; [|done]. unfold transmissions. apply Forall_fmap, Forall_forall.
    by intros c _.
  - rewrite Hsend. eexists. split; [reflexivity|]. simpl.
    rewrite drop_app_length. split; [|done].
    by apply Forall_singleton.
Qed.

Lemma client_payload_is_never_ill_formed_witness :
  ∃ w',
    iteration 1%nat "alice" (Text (Json (Client.payload (lit "  "))))
              calm two_members = (Ok Continue, w')
    ∧ Forall (λ t, event t ≠ Error "Invalid message format")
             (drop (length (wire two_members)) (wire w'))
    ∧ (strip (lit "  ") ≠ [] → len (strip (lit "  ")) ≤ 5000 →
       db_ok calm = true →
       w' = relayed calm "alice" (strip (lit "  ")) two_members).
Proof.
  apply (client_payload_is_never_ill_formed (lit "  ") 1%nat "alice" calm
           two_members).
  reflexivity.
Defined.

End ClientSide.
